(** * Face verification service ([server.js]): model and verified properties

    The service decides, from a reference photo (fetched by URL) and an
    uploaded selfie, whether both show the same person.  This development
    embeds the decision pipeline of [server.js] in Rocq:

    - JavaScript numbers are IEEE 754 binary64 values, modelled by Rocq's
      primitive floats ([PrimFloat]) and specified through [SpecFloat];
    - the asynchronous helpers are written in a state-and-exception monad
      over a [World] of external collaborators (network, image decoder,
      model files, face detector), with a trace of observable calls;
    - the lazy model initialisation is additionally given an interleaving
      semantics (one step per stretch of code between two [await]s). *)

From Stdlib Require Import ZArith Lia List String Bool Floats.
From Stdlib.Strings Require Import Byte.
Import ListNotations.

Local Open Scope Z_scope.

(** ** JavaScript completions *)

(** A thrown JavaScript [Error] or [TypeError], identified by its message. *)
Inductive exn : Type :=
| JSError (message : string)
| JSTypeError (message : string).

(** Result of evaluating a piece of JavaScript: a value or a throw. *)
Inductive completion (A : Type) : Type :=
| Normal (a : A)
| Throw (e : exn).
Arguments Normal {A} a.
Arguments Throw {A} e.

(** ** JavaScript numbers *)

Module JS.

(** The Number type: IEEE 754 binary64. *)
Definition number : Type := float.

Definition is_pos_zero (x : number) : bool := is_zero x && negb (get_sign x).
Definition is_neg_zero (x : number) : bool := is_zero x && get_sign x.

(** [Math.max(...args)] (ECMA-262, 21.3.2.24): start from -Infinity; a NaN
    argument makes the result NaN; +0 is larger than -0. *)
Fixpoint Math_max_from (highest : number) (args : list number) : number :=
  match args with
  | [] => highest
  | n :: rest =>
      if is_nan n then nan
      else
        let h1 := if is_pos_zero n && is_neg_zero highest then n else highest in
        let h2 := if (h1 <? n)%float then n else h1 in
        Math_max_from h2 rest
  end.

Definition Math_max (args : list number) : number :=
  Math_max_from neg_infinity args.

(** [Math.min(...args)] (ECMA-262, 21.3.2.25): dual of [Math.max]. *)
Fixpoint Math_min_from (lowest : number) (args : list number) : number :=
  match args with
  | [] => lowest
  | n :: rest =>
      if is_nan n then nan
      else
        let l1 := if is_neg_zero n && is_pos_zero lowest then n else lowest in
        let l2 := if (n <? l1)%float then n else l1 in
        Math_min_from l2 rest
  end.

Definition Math_min (args : list number) : number :=
  Math_min_from infinity args.

(** [Math.sqrt]: the correctly rounded square root. *)
Definition Math_sqrt (x : number) : number := PrimFloat.sqrt x.

(** [Math.pow(x, 2)].  ECMA-262 leaves [Math.pow] implementation-approximated;
    for the exponent 2 it is taken to be the correctly rounded square. *)
Definition Math_pow2 (x : number) : number := (x * x)%float.

(** The text produced by [Number.prototype.toFixed].  It is kept structured:
    either the digits of a decimal fraction, or the text that [ToString]
    gives for a value that is not finite or is at least 10^21. *)
Inductive fixed_text : Type :=
| FixedToString (x : number)
| FixedDigits (negative : bool) (n : Z) (fractionDigits : Z).

(** [m * 2^e >= 10^21] *)
Definition at_least_1e21 (m : positive) (e : Z) : bool :=
  if 0 <=? e then 10 ^ 21 <=? Zpos m * 2 ^ e
  else 10 ^ 21 * 2 ^ (- e) <=? Zpos m.

(** The integer [n] for which [n / 10^f - m * 2^e] is as close to zero as
    possible, the larger one when there are two: [floor (m*2^e*10^f + 1/2)]. *)
Definition nearest_scaled (m : positive) (e : Z) (f : Z) : Z :=
  let num := Zpos m * 10 ^ f in
  if 0 <=? e then num * 2 ^ e
  else (2 * num + 2 ^ (- e)) / 2 ^ (- e + 1).

(** [x.toFixed(f)] (ECMA-262, 21.1.3.3), for [0 <= f <= 100]. *)
Definition toFixed (x : number) (f : Z) : fixed_text :=
  match Prim2SF x with
  | S754_nan => FixedToString x
  | S754_infinity _ => FixedToString x
  | S754_zero _ => FixedDigits false 0 f
  | S754_finite s m e =>
      if at_least_1e21 m e then FixedToString x
      else FixedDigits s (nearest_scaled m e f) f
  end.

(** The Number value of the decimal fraction [n / 10^f] with [n > 0]:
    the quotient rounded to nearest, ties to even. *)
Definition decimal_value (negative : bool) (n : Z) (f : Z) : spec_float :=
  match n with
  | Z0 => S754_zero negative
  | Zpos _ =>
      let '(q, e, l) := SFdiv_core_binary prec emax n 0 (10 ^ f) 0 in
      binary_round_aux prec emax negative q e l
  | Zneg _ => S754_nan
  end.

(** [Number(text)] for a text produced by [toFixed] (StringToNumber).
    [ToString] round-trips, so its text denotes the number it came from. *)
Definition Number_of (t : fixed_text) : number :=
  match t with
  | FixedToString x => x
  | FixedDigits negative n f => SF2Prim (decimal_value negative n f)
  end.

End JS.

(** ** Reading binary64 values

    Auxiliary notions for reasoning about [SpecFloat]'s operations. *)

Module Binary64.

(** The magnitude [m * 2^e] of a finite value, scaled by [2^1074] so that
    it is an integer for every exponent of the format. *)
Definition mag (m : positive) (e : Z) : Z := Zpos m * 2 ^ (e + 1074).

(** A value that is not NaN and carries the sign bit [s]. *)
Definition has_sign (s : bool) (x : spec_float) : Prop :=
  match x with
  | S754_zero s' => s' = s
  | S754_infinity s' => s' = s
  | S754_finite s' _ _ => s' = s
  | S754_nan => False
  end.

(** Neither NaN nor an infinity. *)
Definition finite (x : JS.number) : bool := PrimFloat.is_finite x.

(** The mantissas of [1 = one_m * 2^-52], of the threshold
    [0.48 = thr_m * 2^-54] and of [100 = hundred_m * 2^-46]. *)
Definition one_m : positive := 4503599627370496.
Definition thr_m : positive := 8646911284551352.
Definition hundred_m : positive := 7036874417766400.

End Binary64.

(** ** The face-api.js collaborator *)

Module faceapi.

(** Modelled from the spec: [faceapi.euclideanDistance] belongs to the
    face-api.js package, which is not among the sources.  Section 4.5 gives
    it as the standard L2 norm of the element-wise difference of two
    embeddings of equal length, a length mismatch being a fault.  The
    package computes
    [Math.sqrt(a.map((v, i) => v - b[i]).reduce((res, d) => res + Math.pow(d, 2), 0))]. *)
Definition euclideanDistance (arr1 arr2 : list JS.number) : completion JS.number :=
  if negb (Nat.eqb (List.length arr1) (List.length arr2)) then
    Throw (JSError "euclideanDistance: arr1.length !== arr2.length"%string)
  else
    let diffs := map (fun p => (fst p - snd p)%float) (combine arr1 arr2) in
    Normal (JS.Math_sqrt
              (fold_left (fun res diff => (res + JS.Math_pow2 diff)%float) diffs 0%float)).

End faceapi.

(** ** The server *)

Module Server.

Local Open Scope string_scope.

(** *** Data *)

Definition Buffer : Type := list byte.

(** A decoded image ([canvas.Image]): integer dimensions and pixel data. *)
Record Image : Type := mkImage {
  width : Z;
  height : Z;
  pixels : list byte
}.

(** A 128-entry face descriptor (a [Float32Array], read as Numbers). *)
Definition Descriptor : Type := list JS.number.

Record Box : Type := mkBox {
  box_x : JS.number;
  box_y : JS.number;
  box_width : JS.number;
  box_height : JS.number
}.

(** One entry of [detectAllFaces(..).withFaceLandmarks().withFaceDescriptors()]:
    [detection.box] and [descriptor] are the fields the server reads. *)
Record FaceDescription : Type := mkFace {
  detection_box : Box;
  descriptor : Descriptor
}.

(** The three networks of [faceapi.nets] that the server loads. *)
Inductive Net : Type :=
| ssdMobilenetv1
| faceLandmark68Net
| faceRecognitionNet.

(** The object returned by [extractFaceData]:
    [{ success: false, msg }] or [{ success: true, descriptor }]. *)
Inductive FaceData : Type :=
| Rejected (msg : string)
| Extracted (descriptor : Descriptor).

Definition success (d : FaceData) : bool :=
  match d with
  | Rejected _ => false
  | Extracted _ => true
  end.

(** The object returned by [compareFaces]. *)
Record VerificationResult : Type := mkResult {
  verified : bool;
  distance : JS.number;
  matchPercentage : JS.number;
  threshold : JS.number
}.

(** The response of [node-fetch]: [res.ok] and the outcome of [res.buffer()]. *)
Record FetchResponse : Type := mkFetchResponse {
  res_ok : bool;
  res_buffer : completion Buffer
}.

(** The request as the handler receives it, after [express.json] and
    [multer]: [req.body] and [req.file].  [req.body] is [None] when no
    middleware has set it (it is then [undefined]); [referenceImageUrl], a
    text field of the form, is [None] when the body object does not have
    it. *)
Record UploadedFile : Type := mkFile { file_buffer : Buffer }.

Record Body : Type := mkBody { referenceImageUrl : option string }.

Record Request : Type := mkRequest {
  req_body : option Body;
  req_file : option UploadedFile
}.

(** [req.body.referenceImageUrl] of a request that has a body object;
    [None] without one. *)
Definition body_referenceImageUrl (req : Request) : option string :=
  match req_body req with
  | Some body => referenceImageUrl body
  | None => None
  end.

Inductive Json : Type :=
| JsonMsg (msg : string)
| JsonResult (r : VerificationResult).

(** [res.status(code).json(body)]; [res.json(body)] answers with 200. *)
Record Response : Type := mkResponse {
  status : Z;
  body : Json
}.

(** *** Configuration (lines 42-45) *)

(** [0.48], the binary64 value [8646911284551352 * 2^-54]. *)
Definition FACE_MATCH_THRESHOLD : JS.number := 0x1.eb851eb851eb8p-2%float.
Definition MIN_FACE_WIDTH : JS.number := 120%float.
Definition MIN_IMAGE_SIZE : Z := 300.
Definition INPUT_SIZE : Z := 512.

(** [new faceapi.SsdMobilenetv1Options({ minConfidence, maxResults, inputSize })] *)
Record SsdMobilenetv1Options : Type := mkOptions {
  minConfidence : JS.number;
  maxResults : Z;
  inputSize : Z
}.

(** *** External collaborators and observable effects *)

(** What the process cannot see into: the network, the image decoder, the
    model files on disk and the detector.  Each call either returns or
    throws. *)
Record World : Type := mkWorld {
  modelPath : string;
  fetch : string -> completion FetchResponse;
  canvas_loadImage : Buffer -> completion Image;
  loadFromDisk : Net -> string -> completion unit;
  (** [None] stands for a null or undefined result. *)
  detectAllFaces : Image -> SsdMobilenetv1Options ->
                   completion (option (list FaceDescription))
}.

Inductive Event : Type :=
| EvFetch (url : string)
| EvBuffer (url : string)
| EvLoadImage (buffer : Buffer)
| EvLoadFromDisk (net : Net) (path : string)
| EvDetect (image : Image) (options : SsdMobilenetv1Options)
| EvLog (text : string)
| EvLogError (text : string) (err : exn).

(** Process state: the [modelsLoaded] flag (line 58) and the calls made so
    far, oldest first. *)
Record State : Type := mkState {
  modelsLoaded : bool;
  trace : list Event
}.

Definition initial : State := mkState false [].

(** *** State-and-exception monad *)

Definition M (A : Type) : Type := State -> completion A * State.

Definition ret {A} (a : A) : M A := fun st => (Normal a, st).

Definition bind {A B} (m : M A) (k : A -> M B) : M B :=
  fun st =>
    match m st with
    | (Normal a, st') => k a st'
    | (Throw e, st') => (Throw e, st')
    end.

Definition throw {A} (e : exn) : M A := fun st => (Throw e, st).

(** [try { body } catch (err) { handler }] *)
Definition try_catch {A} (body : M A) (handler : exn -> M A) : M A :=
  fun st =>
    match body st with
    | (Normal a, st') => (Normal a, st')
    | (Throw e, st') => handler e st'
    end.

(** The state after one more observable call. *)
Definition record (ev : Event) (st : State) : State :=
  mkState (modelsLoaded st) (trace st ++ [ev]).

Definition emit (ev : Event) : M unit :=
  fun st => (Normal tt, record ev st).

Definition get_modelsLoaded : M bool :=
  fun st => (Normal (modelsLoaded st), st).

Definition set_modelsLoaded (b : bool) : M unit :=
  fun st => (Normal tt, mkState b (trace st)).

(** A completed external call re-enters the program. *)
Definition await {A} (c : completion A) : M A :=
  fun st => (c, st).

Declare Scope js_scope.
Delimit Scope js_scope with js.
Notation "x <- m ;; k" := (bind m (fun x => k))
  (at level 61, m at next level, right associativity) : js_scope.
Notation "m ;; k" := (bind m (fun _ => k))
  (at level 61, right associativity) : js_scope.
Local Open Scope js_scope.

Definition console_log (text : string) : M unit := emit (EvLog text).
Definition console_error (text : string) (err : exn) : M unit :=
  emit (EvLogError text err).

(** *** [loadModels] (lines 58-73)

    The texts logged to the console, here and in the handler, are kept
    without their emoji prefix. *)

Definition net_loadFromDisk (w : World) (n : Net) (path : string) : M unit :=
  emit (EvLoadFromDisk n path) ;;
  await (loadFromDisk w n path).

Definition loadModels (w : World) : M unit :=
  loaded <- get_modelsLoaded ;;
  if loaded then ret tt
  else
    console_log "Loading face models..." ;;
    net_loadFromDisk w ssdMobilenetv1 (modelPath w) ;;
    net_loadFromDisk w faceLandmark68Net (modelPath w) ;;
    net_loadFromDisk w faceRecognitionNet (modelPath w) ;;
    set_modelsLoaded true ;;
    console_log "Face models loaded".

(** *** Image helpers (lines 80-90) *)

Definition loadImage (w : World) (buffer : Buffer) : M Image :=
  emit (EvLoadImage buffer) ;;
  await (canvas_loadImage w buffer).

Definition loadImageFromUrl (w : World) (url : string) : M Image :=
  emit (EvFetch url) ;;
  res <- await (fetch w url) ;;
  if negb (res_ok res) then throw (JSError "Failed to fetch reference image")
  else
    emit (EvBuffer url) ;;
    buffer <- await (res_buffer res) ;;
    loadImage w buffer.

Definition loadImageFromBuffer (w : World) (buffer : Buffer) : M Image :=
  loadImage w buffer.

(** *** [extractFaceData] (lines 95-142) *)

Definition detectorOptions : SsdMobilenetv1Options :=
  mkOptions 0.5%float 5 INPUT_SIZE.

Definition detect (w : World) (image : Image) : M (option (list FaceDescription)) :=
  emit (EvDetect image detectorOptions) ;;
  await (detectAllFaces w image detectorOptions).

(** Lines 118-141: what is made of the detector's answer. *)
Definition singleFace (detections : option (list FaceDescription)) : FaceData :=
  match detections with
  | None => Rejected "No face detected"
  | Some [] => Rejected "No face detected"
  | Some (face :: others) =>
      if (1 <? Z.of_nat (List.length (face :: others)))%Z then
        Rejected "Multiple faces detected"
      else
        let faceBox := detection_box face in
        if (box_width faceBox <? MIN_FACE_WIDTH)%float then
          Rejected "Face too small. Move closer to camera."
        else Extracted (descriptor face)
  end.

Definition extractFaceData (w : World) (image : Image) : M FaceData :=
  loadModels w ;;
  if ((width image <? MIN_IMAGE_SIZE) || (height image <? MIN_IMAGE_SIZE))%Z then
    ret (Rejected "Image too low quality. Use better camera.")
  else
    detections <- detect w image ;;
    ret (singleFace detections).

(** *** [compareFaces] (lines 147-160) *)

Definition compareFaces (d1 d2 : Descriptor) : completion VerificationResult :=
  match faceapi.euclideanDistance d1 d2 with
  | Throw e => Throw e
  | Normal distance =>
      let matchPercentage := ((1 - distance) * 100)%float in
      let matchPercentage := JS.Math_max [0%float; JS.Math_min [100%float; matchPercentage]] in
      Normal {|
        verified := (distance <? FACE_MATCH_THRESHOLD)%float;
        distance := JS.Number_of (JS.toFixed distance 4);
        matchPercentage := JS.Number_of (JS.toFixed matchPercentage 2);
        threshold := FACE_MATCH_THRESHOLD
      |}
  end.

(** *** [POST /verify] (lines 176-220) *)

(** JavaScript truthiness of the [referenceImageUrl] field: an absent field
    and the empty string are falsy. *)
Definition truthy (field : option string) : bool :=
  match field with
  | None => false
  | Some EmptyString => false
  | Some (String _ _) => true
  end.

Definition url_of (field : option string) : string :=
  match field with
  | Some url => url
  | None => EmptyString
  end.

Definition bad_request (msg : string) : Response := mkResponse 400 (JsonMsg msg).

(** Line 178, [const { referenceImageUrl } = req.body]: destructuring
    [undefined] throws a [TypeError] (the text is the one Node gives it). *)
Definition destructure_undefined : exn :=
  JSTypeError
    "Cannot destructure property 'referenceImageUrl' of 'req.body' as it is undefined.".

Definition verify_body (w : World) (req : Request) : M Response :=
  match req_body req with
  | None => throw destructure_undefined
  | Some body =>
      let referenceImageUrl := referenceImageUrl body in
      let selfieFile := req_file req in
      match truthy referenceImageUrl, selfieFile with
      | true, Some selfie =>
          referenceImg <- loadImageFromUrl w (url_of referenceImageUrl) ;;
          refData <- extractFaceData w referenceImg ;;
          match refData with
          | Rejected msg => ret (bad_request ("Reference image error: " ++ msg))
          | Extracted refDescriptor =>
              selfieImg <- loadImageFromBuffer w (file_buffer selfie) ;;
              selfieData <- extractFaceData w selfieImg ;;
              match selfieData with
              | Rejected msg => ret (bad_request ("Selfie error: " ++ msg))
              | Extracted selfieDescriptor =>
                  result <- await (compareFaces refDescriptor selfieDescriptor) ;;
                  ret (mkResponse 200 (JsonResult result))
              end
          end
      | _, _ => ret (bad_request "referenceImageUrl and selfie file required")
      end
  end.

Definition verify (w : World) (req : Request) : M Response :=
  try_catch (verify_body w req)
    (fun err =>
       console_error "Verification error:" err ;;
       ret (mkResponse 500 (JsonMsg "Face verification failed"))).

(** *** Observations on a trace *)

Definition is_detect (ev : Event) : bool :=
  match ev with EvDetect _ _ => true | _ => false end.

Definition is_decode (ev : Event) : bool :=
  match ev with EvLoadImage _ => true | _ => false end.

Definition is_fetch (ev : Event) : bool :=
  match ev with EvFetch _ => true | _ => false end.

Definition is_model_load (ev : Event) : bool :=
  match ev with EvLoadFromDisk _ _ => true | _ => false end.

(** How many times the detector, the decoder, the network and the model
    loader have been called. *)
Definition detector_calls (tr : list Event) : nat := List.length (filter is_detect tr).
Definition decoder_calls (tr : list Event) : nat := List.length (filter is_decode tr).
Definition fetch_calls (tr : list Event) : nat := List.length (filter is_fetch tr).
Definition model_loads (tr : list Event) : nat := List.length (filter is_model_load tr).

(** The four messages with which [extractFaceData] rejects an image. *)
Definition rejection_messages : list string :=
  [ "Image too low quality. Use better camera.";
    "No face detected";
    "Multiple faces detected";
    "Face too small. Move closer to camera." ].

(** The answer of the [catch] block of [POST /verify]. *)
Definition server_error : Response :=
  mkResponse 500 (JsonMsg "Face verification failed").

End Server.

(** ** Concurrent calls of [loadModels]

    Node runs one stretch of JavaScript at a time; a call of an [async]
    function gives up control at each [await] and is resumed later.  Between
    two such stretches any other pending call may run.  [resume] runs one
    stretch of [loadModels]; a schedule picks which call runs next. *)

Module LoadRace.

Import Server.
Local Open Scope string_scope.
Local Open Scope js_scope.

(** Where a call of [loadModels] stands. *)
Inductive Point : Type :=
| AtEntry
| Awaiting (n : Net)
| Returned
| Rejected (e : exn).

(** What follows the [await] on the load of net [n] (lines 67-72). *)
Definition after_load (w : World) (n : Net) : M Point :=
  match n with
  | ssdMobilenetv1 =>
      emit (EvLoadFromDisk faceLandmark68Net (modelPath w)) ;;
      ret (Awaiting faceLandmark68Net)
  | faceLandmark68Net =>
      emit (EvLoadFromDisk faceRecognitionNet (modelPath w)) ;;
      ret (Awaiting faceRecognitionNet)
  | faceRecognitionNet =>
      set_modelsLoaded true ;;
      console_log "Face models loaded" ;;
      ret Returned
  end.

(** One stretch of [loadModels], from where the call stands up to its next
    [await] or its end. *)
Definition resume (w : World) (p : Point) : M Point :=
  match p with
  | AtEntry =>
      loaded <- get_modelsLoaded ;;
      if loaded then ret Returned
      else
        console_log "Loading face models..." ;;
        emit (EvLoadFromDisk ssdMobilenetv1 (modelPath w)) ;;
        ret (Awaiting ssdMobilenetv1)
  | Awaiting n =>
      match loadFromDisk w n (modelPath w) with
      | Throw e => ret (Rejected e)
      | Normal _ => after_load w n
      end
  | Returned => ret Returned
  | Rejected e => ret (Rejected e)
  end.

(** The process: its state and the pending calls of [loadModels]. *)
Record System : Type := mkSystem {
  sys_state : State;
  sys_calls : list Point
}.

Fixpoint set_nth {A} (i : nat) (a : A) (l : list A) : list A :=
  match l, i with
  | [], _ => []
  | _ :: rest, O => a :: rest
  | x :: rest, S j => x :: set_nth j a rest
  end.

(** The event loop resumes call [i]. *)
Definition turn (w : World) (i : nat) (s : System) : System :=
  match nth_error (sys_calls s) i with
  | None => s
  | Some p =>
      match resume w p (sys_state s) with
      | (Normal p', st') => mkSystem st' (set_nth i p' (sys_calls s))
      | (Throw _, st') => mkSystem st' (sys_calls s)
      end
  end.

Definition run (w : World) (schedule : list nat) (s : System) : System :=
  fold_left (fun s i => turn w i s) schedule s.

Definition loads_of (n : Net) (tr : list Event) : nat :=
  List.length
    (filter (fun ev => match ev, n with
                       | EvLoadFromDisk ssdMobilenetv1 _, ssdMobilenetv1 => true
                       | EvLoadFromDisk faceLandmark68Net _, faceLandmark68Net => true
                       | EvLoadFromDisk faceRecognitionNet _, faceRecognitionNet => true
                       | _, _ => false
                       end) tr).

End LoadRace.

(** ** Sample collaborators, used to exercise the model *)

Module Sample.

Import Server.
Local Open Scope string_scope.

Definition byte_number (b : byte) : JS.number :=
  PrimFloat.of_uint63 (Uint63.of_Z (Z.of_N (Byte.to_N b))).

(** A camera-independent toy embedding: one coordinate per pixel byte,
    scaled by 1/100. *)
Definition toy_descriptor (img : Image) : Descriptor :=
  map (fun b => (byte_number b / 100)%float) (pixels img).

Definition face_of (boxWidth : JS.number) (img : Image) : FaceDescription :=
  mkFace (mkBox 10%float 10%float boxWidth boxWidth) (toy_descriptor img).

(** Every fetch and load succeeds, every buffer decodes to an image of the
    given size, and the detector finds one face per given box width. *)
Definition world (w h : Z) (boxWidths : list JS.number) : World :=
  {| modelPath := "/srv/models";
     fetch := fun url => Normal (mkFetchResponse true (Normal [x1e]%byte));
     canvas_loadImage := fun buf => Normal (mkImage w h buf);
     loadFromDisk := fun _ _ => Normal tt;
     detectAllFaces := fun img _ => Normal (Some (map (fun bw => face_of bw img) boxWidths)) |}.

(** The model files are missing. *)
Definition world_without_models : World :=
  {| modelPath := "/srv/models";
     fetch := fun url => Normal (mkFetchResponse true (Normal [x1e]%byte));
     canvas_loadImage := fun buf => Normal (mkImage 640 480 buf);
     loadFromDisk := fun _ _ => Throw (JSError "ENOENT: no such file or directory");
     detectAllFaces := fun img _ => Throw (JSError "load model before inference") |}.

(** The reference URL answers 404. *)
Definition world_fetch_404 : World :=
  {| modelPath := "/srv/models";
     fetch := fun url => Normal (mkFetchResponse false (Normal []));
     canvas_loadImage := fun buf => Normal (mkImage 640 480 buf);
     loadFromDisk := fun _ _ => Normal tt;
     detectAllFaces := fun img _ => Normal (Some [face_of 200%float img]) |}.

Definition request : Request :=
  mkRequest (Some (mkBody (Some "http://example.org/id.jpg"))) (Some (mkFile [x00]%byte)).

(** A detector that answers with no list at all. *)
Definition world_null_detector : World :=
  {| modelPath := "/srv/models";
     fetch := fun url => Normal (mkFetchResponse true (Normal [x1e]%byte));
     canvas_loadImage := fun buf => Normal (mkImage 640 480 buf);
     loadFromDisk := fun _ _ => Normal tt;
     detectAllFaces := fun img _ => Normal None |}.

(** A detector whose descriptors have one entry more than the image has
    pixel bytes, so that images of different sizes give descriptors of
    different lengths. *)
Definition world_ragged_descriptors : World :=
  {| modelPath := "/srv/models";
     fetch := fun url => Normal (mkFetchResponse true (Normal [x1e]%byte));
     canvas_loadImage := fun buf => Normal (mkImage 640 480 buf);
     loadFromDisk := fun _ _ => Normal tt;
     detectAllFaces := fun img _ =>
       Normal (Some [mkFace (mkBox 10%float 10%float 200%float 200%float)
                       (0%float :: toy_descriptor img)]) |}.

(** A request whose [referenceImageUrl] field is the empty string. *)
Definition request_empty_url : Request :=
  mkRequest (Some (mkBody (Some EmptyString))) (Some (mkFile [x00]%byte)).

(** A request on which no middleware has set [req.body]. *)
Definition request_without_body : Request :=
  mkRequest None None.

(** A request with a two-byte selfie. *)
Definition request_long_selfie : Request :=
  mkRequest (Some (mkBody (Some "http://example.org/id.jpg")))
    (Some (mkFile [x00; x01]%byte)).

End Sample.
(** * Binary64 arithmetic

    Facts about [SpecFloat]'s rounding that the properties of [compareFaces]
    rest on. *)

Import Binary64.

(** ** Digits and shifts *)

Lemma digits2_size p : digits2_pos p = Pos.size p.
Proof. induction p; simpl; congruence. Qed.

Lemma digits2_bounds p :
  2 ^ (Zpos (digits2_pos p) - 1) <= Zpos p < 2 ^ Zpos (digits2_pos p).
Proof.
  rewrite digits2_size. split.
  - pose proof (Pos.size_le p) as H.
    apply Pos2Z.pos_le_pos in H. rewrite Pos2Z.inj_pow in H.
    replace (Zpos (Pos.size p)) with (Z.succ (Zpos (Pos.size p) - 1)) in H by lia.
    rewrite Z.pow_succ_r in H by lia.
    change (Zpos p~0) with (2 * Zpos p) in H. lia.
  - pose proof (Pos.size_gt p) as H.
    apply Pos2Z.pos_lt_pos in H. now rewrite Pos2Z.inj_pow in H.
Qed.

Lemma pow2_pos n : 0 <= n -> 0 < 2 ^ n.
Proof. intros. apply Z.pow_pos_nonneg; lia. Qed.

Lemma Zdigits2_unique m n :
  0 < m -> 2 ^ (n - 1) <= m < 2 ^ n -> Zdigits2 m = n.
Proof.
  intros Hm [Hlo Hhi].
  destruct m as [|p|p]; try lia. simpl.
  pose proof (digits2_bounds p) as [Dlo Dhi].
  set (d := Zpos (digits2_pos p)) in *.
  assert (0 <= n).
  { destruct (Z_lt_le_dec n 0) as [Hn|Hn]; [|assumption].
    rewrite Z.pow_neg_r in Hhi by assumption. lia. }
  destruct (Z.lt_trichotomy d n) as [Hlt|[Heq|Hgt]]; [|assumption|].
  - assert (2 ^ d <= 2 ^ (n - 1)) by (apply Z.pow_le_mono_r; lia). lia.
  - assert (2 ^ n <= 2 ^ (d - 1)) by (apply Z.pow_le_mono_r; lia). lia.
Qed.

Lemma shr_record_of_loc_m m l : shr_m (shr_record_of_loc m l) = m.
Proof. destruct l as [|[]]; reflexivity. Qed.

Lemma shr_1_m mrs : 0 <= shr_m mrs -> shr_m (shr_1 mrs) = shr_m mrs / 2.
Proof.
  destruct mrs as [m r s]; unfold shr_1, shr_m. intros Hm.
  destruct m as [|[p|p|]|p]; unfold shr_m; try lia; try reflexivity.
  - change (Zpos p~1) with (2 * Zpos p + 1).
    apply Z.div_unique with 1; lia.
  - change (Zpos p~0) with (2 * Zpos p).
    apply Z.div_unique with 0; lia.
Qed.

Lemma pow2_xO p : 2 ^ Zpos p~0 = 2 ^ Zpos p * 2 ^ Zpos p.
Proof.
  change (Zpos p~0) with (2 * Zpos p).
  replace (2 * Zpos p) with (Zpos p + Zpos p) by lia.
  apply Z.pow_add_r; lia.
Qed.

Lemma pow2_xI p : 2 ^ Zpos p~1 = 2 * (2 ^ Zpos p * 2 ^ Zpos p).
Proof.
  change (Zpos p~1) with (Z.succ (Zpos p~0)).
  rewrite Z.pow_succ_r by lia. now rewrite pow2_xO.
Qed.

Lemma iter_shr_m p : forall mrs,
  0 <= shr_m mrs ->
  shr_m (iter_pos shr_1 p mrs) = shr_m mrs / 2 ^ Zpos p.
Proof.
  induction p as [p IH|p IH|]; intros mrs Hm; simpl iter_pos.
  - assert (H1 : 0 <= shr_m (shr_1 mrs)).
    { rewrite shr_1_m by assumption. apply Z.div_pos; lia. }
    assert (H2 : 0 <= shr_m (iter_pos shr_1 p (shr_1 mrs))).
    { rewrite IH by assumption. apply Z.div_pos; [lia|apply pow2_pos; lia]. }
    rewrite IH by assumption. rewrite IH by assumption.
    rewrite shr_1_m by assumption.
    pose proof (pow2_pos (Zpos p) ltac:(lia)).
    rewrite !Z.div_div by lia.
    now rewrite pow2_xI, Z.mul_assoc.
  - assert (H2 : 0 <= shr_m (iter_pos shr_1 p mrs)).
    { rewrite IH by assumption. apply Z.div_pos; [lia|apply pow2_pos; lia]. }
    rewrite IH by assumption. rewrite IH by assumption.
    pose proof (pow2_pos (Zpos p) ltac:(lia)).
    rewrite !Z.div_div by lia.
    now rewrite pow2_xO.
  - rewrite shr_1_m by assumption. reflexivity.
Qed.

Lemma round_nearest_even_cases m l :
  round_nearest_even m l = m \/ round_nearest_even m l = m + 1.
Proof.
  destruct l as [|[]]; simpl; auto. destruct (Z.even m); auto.
Qed.

Lemma fexp64 x : fexp prec emax x = Z.max (x - 53) (-1074).
Proof. reflexivity. Qed.

Lemma shr_shift m l e n :
  0 <= m -> 0 <= n ->
  shr_m (fst (shr (shr_record_of_loc m l) e n)) = m / 2 ^ n
  /\ snd (shr (shr_record_of_loc m l) e n) = e + n.
Proof.
  intros Hm Hn. destruct n as [|p|p]; try lia; simpl.
  - rewrite shr_record_of_loc_m, Z.div_1_r. split; [reflexivity|lia].
  - rewrite iter_shr_m by (rewrite shr_record_of_loc_m; assumption).
    now rewrite shr_record_of_loc_m.
Qed.

Lemma binary_round_aux_normal s m e l :
  0 < m -> 53 <= Zdigits2 m -> -1074 <= Zdigits2 m + e - 53 ->
  exists m' e',
    binary_round_aux prec emax s m e l =
      (if e' <=? 971 then S754_finite s m' e' else S754_infinity s)
    /\ e + (Zdigits2 m - 53) <= e' <= e + (Zdigits2 m - 53) + 1
    /\ 2 ^ 52 <= Zpos m' < 2 ^ 53
    /\ (m / 2 ^ (Zdigits2 m - 53)) * 2 ^ (Zdigits2 m - 53) <= Zpos m' * 2 ^ (e' - e)
       <= (m / 2 ^ (Zdigits2 m - 53) + 1) * 2 ^ (Zdigits2 m - 53).
Proof.
  intros Hm HD Hnorm.
  set (k := Zdigits2 m - 53) in *.
  assert (Hk : 0 <= k) by (unfold k; lia).
  pose proof (pow2_pos k Hk) as Hpk.
  (* the mantissa after the first shift *)
  assert (Hm1 : 2 ^ 52 <= m / 2 ^ k < 2 ^ 53).
  { destruct m as [|p|p]; try lia.
    pose proof (digits2_bounds p) as [Dlo Dhi].
    assert (Ek : Zpos (digits2_pos p) = 53 + k). { unfold k. change (Zdigits2 (Zpos p)) with (Zpos (digits2_pos p)). lia. }
    rewrite Ek in Dlo, Dhi.
    replace (53 + k - 1) with (52 + k) in Dlo by lia.
    rewrite Z.pow_add_r in Dlo, Dhi by lia.
    split.
    - apply Z.div_le_lower_bound; lia.
    - apply Z.div_lt_upper_bound; lia. }
  unfold binary_round_aux.
  destruct (shr_fexp prec emax m e l) as [mrs1 e1] eqn:E1.
  assert (H1 : shr_m mrs1 = m / 2 ^ k /\ e1 = e + k).
  { unfold shr_fexp in E1. rewrite fexp64 in E1.
    replace (Z.max (Zdigits2 m + e - 53) (-1074) - e) with k in E1 by (unfold k; lia).
    pose proof (shr_shift m l e k ltac:(lia) Hk) as [A B].
    rewrite E1 in A, B. simpl in A, B. auto. }
  destruct H1 as [H1 He1].
  set (m1r := round_nearest_even (shr_m mrs1) (loc_of_shr_record mrs1)).
  assert (Hr : m1r = m / 2 ^ k \/ m1r = m / 2 ^ k + 1).
  { unfold m1r. rewrite <- H1. apply round_nearest_even_cases. }
  destruct (shr_fexp prec emax m1r e1 loc_Exact) as [mrs2 e2] eqn:E2.
  unfold shr_fexp in E2. rewrite fexp64 in E2.
  destruct (Z_lt_le_dec m1r (2 ^ 53)) as [Hlt|Hge].
  - (* no carry *)
    assert (D53 : Zdigits2 m1r = 53)
      by (apply Zdigits2_unique; change (53 - 1) with 52; lia).
    rewrite D53 in E2.
    replace (Z.max (53 + e1 - 53) (-1074) - e1) with 0 in E2 by lia.
    simpl in E2. injection E2 as <- <-. simpl shr_m.
    destruct m1r as [|q|q] eqn:Eq; try lia.
    exists q, e1. split; [reflexivity|].
    split; [lia|]. split; [lia|].
    replace (e1 - e) with k by lia. nia.
  - (* the rounded mantissa reached 2^53 *)
    assert (Em : m1r = 2 ^ 53) by lia.
    assert (D54 : Zdigits2 m1r = 54) by (rewrite Em; reflexivity).
    rewrite D54 in E2.
    replace (Z.max (54 + e1 - 53) (-1074) - e1) with 1 in E2 by lia.
    rewrite Em in E2. simpl in E2. injection E2 as <- <-. simpl shr_m.
    exists 4503599627370496%positive, (e1 + 1). split; [reflexivity|].
    split; [lia|]. split; [split; [reflexivity|reflexivity]|].
    replace (e1 + 1 - e) with (k + 1) by lia.
    rewrite Z.pow_add_r by lia.
    change (Zpos 4503599627370496) with (2 ^ 52).  
    change (2 ^ 1) with 2. 
    assert (m / 2 ^ k + 1 = 2 ^ 53) by lia.
    change (2 ^ 53) with (2 ^ 52 * 2) in *. nia.
Qed.

(** ** Signs *)

Lemma shr_nonneg m l e n :
  0 <= m -> 0 <= shr_m (fst (shr (shr_record_of_loc m l) e n)).
Proof.
  intros Hm. destruct n as [|p|p]; simpl; rewrite ?shr_record_of_loc_m; try assumption.
  rewrite iter_shr_m by (rewrite shr_record_of_loc_m; assumption).
  rewrite shr_record_of_loc_m. apply Z.div_pos; [assumption|apply pow2_pos; lia].
Qed.

Lemma binary_round_aux_sign s m e l :
  0 <= m -> has_sign s (binary_round_aux prec emax s m e l).
Proof.
  intros Hm. unfold binary_round_aux.
  destruct (shr_fexp prec emax m e l) as [mrs1 e1] eqn:E1.
  assert (H1 : 0 <= shr_m mrs1).
  { unfold shr_fexp in E1.
    pose proof (shr_nonneg m l e (fexp prec emax (Zdigits2 m + e) - e) Hm) as A.
    now rewrite E1 in A. }
  set (m1r := round_nearest_even (shr_m mrs1) (loc_of_shr_record mrs1)).
  assert (Hr : 0 <= m1r).
  { unfold m1r.
    destruct (round_nearest_even_cases (shr_m mrs1) (loc_of_shr_record mrs1)) as [-> | ->]; lia. }
  destruct (shr_fexp prec emax m1r e1 loc_Exact) as [mrs2 e2] eqn:E2.
  assert (H2 : 0 <= shr_m mrs2).
  { unfold shr_fexp in E2.
    pose proof (shr_nonneg m1r loc_Exact e1 (fexp prec emax (Zdigits2 m1r + e1) - e1) Hr) as A.
    now rewrite E2 in A. }
  destruct (shr_m mrs2) as [|q|q]; try lia.
  - reflexivity.
  - destruct (e2 <=? emax - prec); reflexivity.
Qed.

Lemma binary_round_sign s m e : has_sign s (binary_round prec emax s m e).
Proof.
  unfold binary_round.
  destruct (shl_align m e (fexp prec emax (Zpos (digits2_pos m) + e))) as [mz ez].
  apply binary_round_aux_sign. lia.
Qed.

Lemma binary_round_aux_abs s m e l :
  SFabs (binary_round_aux prec emax s m e l) = SFabs (binary_round_aux prec emax false m e l).
Proof.
  unfold binary_round_aux.
  destruct (shr_fexp prec emax m e l) as [mrs1 e1].
  destruct (shr_fexp prec emax _ e1 loc_Exact) as [mrs2 e2].
  destruct (shr_m mrs2); try reflexivity.
  destruct (e2 <=? emax - prec); reflexivity.
Qed.

Lemma binary_normalize_abs_opp z e :
  SFabs (binary_normalize prec emax (- z) e false) = SFabs (binary_normalize prec emax z e false).
Proof.
  destruct z as [|p|p]; simpl; try reflexivity; unfold binary_round;
    destruct (shl_align p e _) as [mz ez];
    rewrite (binary_round_aux_abs true); reflexivity.
Qed.

Lemma SFsub_abs_comm x y :
  SFabs (SFsub prec emax x y) = SFabs (SFsub prec emax y x).
Proof.
  destruct x as [sx|sx| |sx mx ex], y as [sy|sy| |sy my ey];
    try (destruct sx; try destruct sy; reflexivity);
    try (destruct sy; reflexivity); try reflexivity.
  unfold SFsub. rewrite (Z.min_comm ey ex).
  rewrite <- binary_normalize_abs_opp. f_equal. f_equal. lia.
Qed.

Lemma SFmul_self_abs x y :
  SFabs x = SFabs y -> SFmul prec emax x x = SFmul prec emax y y.
Proof.
  destruct x as [sx|sx| |sx mx ex], y as [sy|sy| |sy my ey]; simpl; try discriminate; try reflexivity.
  - destruct sx, sy; reflexivity.
  - destruct sx, sy; reflexivity.
  - intros H. injection H as -> ->. destruct sx, sy; reflexivity.
Qed.

Lemma sub_square_comm (a b : float) :
  ((a - b) * (a - b))%float = ((b - a) * (b - a))%float.
Proof.
  apply Prim2SF_inj. rewrite !mul_spec, !sub_spec.
  apply SFmul_self_abs, SFsub_abs_comm.
Qed.

(** ** Order *)

Lemma bounded_inv m e :
  bounded prec emax m e = true ->
  -1074 <= e <= 971 /\ Zpos m < 2 ^ 53 /\ (-1074 < e -> 2 ^ 52 <= Zpos m).
Proof.
  unfold bounded, canonical_mantissa. rewrite andb_true_iff, fexp64.
  intros [Hc He]. apply Z.eqb_eq in Hc. apply Z.leb_le in He.
  change (emax - prec) with 971 in He.
  pose proof (digits2_bounds m) as [Dlo Dhi].
  set (d := Zpos (digits2_pos m)) in *.
  assert (Hd : d <= 53) by lia.
  split; [lia|]. split.
  - assert (2 ^ d <= 2 ^ 53) by (apply Z.pow_le_mono_r; lia). lia.
  - intros Hn. assert (d = 53) by lia. subst d.
    replace (Zpos (digits2_pos m) - 1) with 52 in Dlo by lia. exact Dlo.
Qed.

Lemma mag_pos m e : -1074 <= e -> 0 < mag m e.
Proof. intros. unfold mag. pose proof (pow2_pos (e + 1074)). nia. Qed.

Lemma SFcompare_mag m1 e1 m2 e2 :
  bounded prec emax m1 e1 = true -> bounded prec emax m2 e2 = true ->
  SFcompare (S754_finite false m1 e1) (S754_finite false m2 e2)
  = Some (mag m1 e1 ?= mag m2 e2).
Proof.
  intros B1 B2.
  apply bounded_inv in B1 as (E1 & U1 & L1).
  apply bounded_inv in B2 as (E2 & U2 & L2).
  unfold SFcompare, mag. f_equal.
  destruct (Z.compare_spec e1 e2) as [Heq|Hlt|Hgt].
  - subst e2. pose proof (pow2_pos (e1 + 1074) ltac:(lia)).
    rewrite Pos.compare_cont_spec. simpl Pos.switch_Eq.
    destruct (Pos.compare_spec m1 m2) as [Hm|Hm|Hm]; symmetry.
    + subst m2. apply Z.compare_refl.
    + apply Z.compare_lt_iff. apply Z.mul_lt_mono_pos_r; lia.
    + apply Z.compare_gt_iff. apply Z.mul_lt_mono_pos_r; lia.
  - symmetry. apply Z.compare_lt_iff.
    replace (e2 + 1074) with ((e1 + 1074) + (e2 - e1)) by lia.
    rewrite (Z.pow_add_r 2 (e1 + 1074) (e2 - e1)) by lia.
    pose proof (pow2_pos (e1 + 1074) ltac:(lia)).
    assert (2 ^ 1 <= 2 ^ (e2 - e1)) by (apply Z.pow_le_mono_r; lia).
    change (2 ^ 1) with 2 in *. change (2 ^ 53) with (2 * 2 ^ 52) in *.
    assert (L2' := L2 ltac:(lia)). clear L1 L2.
    set (X := 2 ^ (e1 + 1074)) in *. set (Y := 2 ^ (e2 - e1)) in *.
    assert (Z.pos m1 * X < 2 * 2 ^ 52 * X) by (apply Z.mul_lt_mono_pos_r; lia).
    assert (2 * 2 ^ 52 <= Z.pos m2 * Y) by nia.
    assert (2 * 2 ^ 52 * X <= Z.pos m2 * Y * X) by (apply Z.mul_le_mono_nonneg_r; lia).
    lia.
  - symmetry. apply Z.compare_gt_iff.
    replace (e1 + 1074) with ((e2 + 1074) + (e1 - e2)) by lia.
    rewrite (Z.pow_add_r 2 (e2 + 1074) (e1 - e2)) by lia.
    pose proof (pow2_pos (e2 + 1074) ltac:(lia)).
    assert (2 ^ 1 <= 2 ^ (e1 - e2)) by (apply Z.pow_le_mono_r; lia).
    change (2 ^ 1) with 2 in *. change (2 ^ 53) with (2 * 2 ^ 52) in *.
    assert (L1' := L1 ltac:(lia)). clear L1 L2.
    set (X := 2 ^ (e2 + 1074)) in *. set (Y := 2 ^ (e1 - e2)) in *.
    assert (Z.pos m2 * X < 2 * 2 ^ 52 * X) by (apply Z.mul_lt_mono_pos_r; lia).
    assert (2 * 2 ^ 52 <= Z.pos m1 * Y) by nia.
    assert (2 * 2 ^ 52 * X <= Z.pos m1 * Y * X) by (apply Z.mul_le_mono_nonneg_r; lia).
    lia.
Qed.

(** ** The constants of [compareFaces] *)

Lemma Prim2SF_zero : Prim2SF 0%float = S754_zero false.
Proof. reflexivity. Qed.
Lemma Prim2SF_one : Prim2SF 1%float = S754_finite false one_m (-52).
Proof. reflexivity. Qed.
Lemma Prim2SF_hundred : Prim2SF 100%float = S754_finite false hundred_m (-46).
Proof. reflexivity. Qed.
Lemma Prim2SF_threshold :
  Prim2SF Server.FACE_MATCH_THRESHOLD = S754_finite false thr_m (-54).
Proof. reflexivity. Qed.

Lemma Prim2SF_bounded x s m e :
  Prim2SF x = S754_finite s m e -> bounded prec emax m e = true.
Proof. intros H. pose proof (Prim2SF_valid x) as V. now rewrite H in V. Qed.

Lemma iter_xO_pow m d : Zpos (Pos.iter xO m d) = Zpos m * 2 ^ Zpos d.
Proof.
  induction d using Pos.peano_ind.
  - simpl. change (Zpos m~0) with (2 * Zpos m). change (2 ^ 1) with 2. lia.
  - rewrite Pos.iter_succ, Pos2Z.inj_succ, Z.pow_succ_r by lia.
    change (Zpos (Pos.iter xO m d)~0) with (2 * Zpos (Pos.iter xO m d)). lia.
Qed.

Lemma shl_align_le m e e' :
  e' <= e -> Zpos (fst (shl_align m e e')) = Zpos m * 2 ^ (e - e').
Proof.
  intros H. unfold shl_align. destruct (e' - e) as [|d|d] eqn:E; try lia.
  - replace (e - e') with 0 by lia. cbn [fst]. change (2 ^ 0) with 1. lia.
  - cbn [fst]. rewrite iter_xO_pow. f_equal. f_equal. pose proof (Pos2Z.opp_pos d). lia.
Qed.

Lemma shl_align_ge m e e' : e <= e' -> shl_align m e e' = (m, e).
Proof.
  intros H. unfold shl_align. destruct (e' - e) as [|d|d] eqn:E; try lia; reflexivity.
Qed.

Lemma div_pow2_lower m k : 0 <= k -> m - 2 ^ k < m / 2 ^ k * 2 ^ k.
Proof.
  intros Hk. pose proof (pow2_pos k Hk).
  pose proof (Z.mod_pos_bound m (2 ^ k) ltac:(lia)).
  pose proof (Z.div_mod m (2 ^ k) ltac:(lia)). lia.
Qed.

(** Comparison of two finite positive values by exponent alone. *)
Lemma mag_lt_of_exp m1 e1 m2 e2 :
  bounded prec emax m1 e1 = true -> bounded prec emax m2 e2 = true ->
  e1 < e2 -> mag m1 e1 < mag m2 e2.
Proof.
  intros B1 B2 H. pose proof (SFcompare_mag m1 e1 m2 e2 B1 B2) as C.
  unfold SFcompare in C. apply Z.compare_lt_iff in H. rewrite H in C.
  injection C as C. symmetry in C. now apply Z.compare_lt_iff.
Qed.

Lemma mag_threshold : mag thr_m (-54) = Zpos thr_m * 2 ^ 1020.
Proof. reflexivity. Qed.

(** [1 - d] for [0 < d < 0.48] *)
Lemma sub_one_below_threshold m e :
  bounded prec emax m e = true ->
  mag m e < mag thr_m (-54) ->
  exists m' e',
    SFsub prec emax (S754_finite false one_m (-52)) (S754_finite false m e)
    = S754_finite false m' e'
    /\ -53 <= e' <= -52 /\ 2 ^ 52 <= Zpos m' < 2 ^ 53
    /\ 9367487224930630 * 2 ^ 1020 <= mag m' e'.
Proof.
  intros B Hlt.
  assert (Hsmall : e <= -54).
  { destruct (Z_le_gt_dec e (-54)) as [|Hg]; [assumption|exfalso].
    pose proof (mag_lt_of_exp thr_m (-54) m e eq_refl B ltac:(lia)). lia. }
  apply bounded_inv in B as (He & Hu & Hl).
  unfold SFsub. rewrite Z.min_r by lia. unfold cond_Zopp.
  set (t := - e). set (k := t - 53).
  assert (Ht : 54 <= t <= 1074) by (unfold t; lia).
  pose proof (pow2_pos k ltac:(unfold k; lia)) as Hpk.
  pose proof (pow2_pos (e + 1074) ltac:(lia)) as HpY.
  assert (EA : Zpos (fst (shl_align one_m (-52) e)) = 2 ^ t).
  { rewrite shl_align_le by lia. replace (-52 - e) with (t - 52) by (unfold t; lia).
    change (Zpos one_m) with (2 ^ 52). rewrite <- Z.pow_add_r by lia. f_equal. lia. }
  assert (EB : Zpos (fst (shl_align m e e)) = Zpos m).
  { rewrite shl_align_le by lia. rewrite Z.sub_diag. change (2 ^ 0) with 1. lia. }
  rewrite EA, EB.
  assert (EtY : 2 ^ t * 2 ^ (e + 1074) = 2 ^ 54 * 2 ^ 1020).
  { rewrite <- !Z.pow_add_r by lia. f_equal. unfold t. lia. }
  assert (EkY : 2 ^ k * 2 ^ (e + 1074) = 2 ^ 1 * 2 ^ 1020).
  { rewrite <- !Z.pow_add_r by (unfold k; lia). f_equal. unfold k, t. lia. }
  set (z := 2 ^ t - Zpos m).
  assert (Hz : 2 ^ (t - 1) <= z < 2 ^ t).
  { unfold z.
    assert (E2 : 2 ^ t = 2 * 2 ^ (t - 1)).
    { rewrite <- Z.pow_succ_r by lia. f_equal. lia. }
    assert (2 ^ 53 <= 2 ^ (t - 1)) by (apply Z.pow_le_mono_r; lia). lia. }
  assert (Hz0 : 0 < z) by (pose proof (pow2_pos (t - 1) ltac:(lia)); lia).
  destruct z as [|M|M] eqn:EM; try lia.
  unfold binary_normalize, binary_round.
  assert (DM : Zdigits2 (Zpos M) = t) by (apply Zdigits2_unique; lia).
  change (Zpos (digits2_pos M)) with (Zdigits2 (Zpos M)). rewrite DM.
  rewrite fexp64. replace (Z.max (t + e - 53) (-1074)) with (-53) by (unfold t; lia).
  rewrite shl_align_ge by lia.
  destruct (binary_round_aux_normal false (Zpos M) e loc_Exact) as (m' & e' & Hr & He' & Hm' & Hb).
  { lia. } { rewrite DM. lia. } { rewrite DM. unfold t. lia. }
  rewrite DM in He', Hb. fold k in He', Hb.
  exists m', e'. rewrite Hr.
  replace (e' <=? 971) with true by (symmetry; apply Z.leb_le; unfold k, t in He'; lia).
  split; [reflexivity|]. split; [unfold k, t in He'; lia|]. split; [assumption|].
  rewrite mag_threshold in Hlt. unfold mag in *.
  replace (e' + 1074) with ((e' - e) + (e + 1074)) by lia.
  rewrite (Z.pow_add_r 2 (e' - e) (e + 1074)) by (unfold k, t in He'; lia).
  pose proof (div_pow2_lower (Zpos M) k ltac:(unfold k; lia)) as Hd.
  destruct Hb as [Hb _].
  assert (H1 : (Zpos M - 2 ^ k) * 2 ^ (e + 1074) <= Zpos m' * 2 ^ (e' - e) * 2 ^ (e + 1074)).
  { apply Z.mul_le_mono_nonneg_r; [apply Z.lt_le_incl; exact HpY|].
    apply Z.le_trans with (2 := Hb). apply Z.lt_le_incl. exact Hd. }
  rewrite Z.mul_sub_distr_r, EkY in H1.
  assert (H2 : Zpos M * 2 ^ (e + 1074) = 2 ^ 54 * 2 ^ 1020 - Zpos m * 2 ^ (e + 1074)).
  { rewrite <- EM. unfold z. rewrite Z.mul_sub_distr_r, EtY. reflexivity. }
  rewrite H2 in H1. rewrite Z.mul_assoc.
  pose proof (pow2_pos 1020 ltac:(lia)) as HP.
  revert H1 Hlt HP. clear.
  generalize (Zpos m' * 2 ^ (e' - e) * 2 ^ (e + 1074)) (Zpos m * 2 ^ (e + 1074)) (2 ^ 1020).
  unfold thr_m. intros R Bm P. lia.
Qed.

Lemma pow2_le a b : a <= b -> 2 ^ a <= 2 ^ b.
Proof.
  intros H. destruct (Z_lt_le_dec a 0) as [Hn|Hn].
  - rewrite (Z.pow_neg_r 2 a) by assumption.
    destruct (Z_lt_le_dec b 0) as [Hb|Hb].
    + rewrite Z.pow_neg_r by assumption. lia.
    + pose proof (pow2_pos b Hb). lia.
  - apply Z.pow_le_mono_r; lia.
Qed.

(** [x * 100] for [x] in [[1/2, 1]] *)
Lemma mul_hundred_lower m e :
  2 ^ 52 <= Zpos m < 2 ^ 53 -> -53 <= e <= -52 ->
  exists m' e',
    SFmul prec emax (S754_finite false m e) (S754_finite false hundred_m (-46))
    = S754_finite false m' e'
    /\ 100 * mag m e - 512 * 2 ^ 1020 <= mag m' e'.
Proof.
  intros Hm He. unfold SFmul. change (xorb false false) with false.
  set (P := (m * hundred_m)%positive).
  assert (EP : Zpos P = Zpos m * (100 * 2 ^ 46)) by (unfold P; rewrite Pos2Z.inj_mul; reflexivity).
  pose proof (digits2_bounds P) as [Dlo Dhi].
  change (Zpos (digits2_pos P)) with (Zdigits2 (Zpos P)) in Dlo, Dhi.
  set (D := Zdigits2 (Zpos P)) in *.
  assert (HD : 105 <= D <= 106).
  { split.
    - destruct (Z_lt_le_dec D 105) as [Hc|]; [exfalso|assumption].
      assert (2 ^ D <= 2 ^ 104) by (apply pow2_le; lia).
      assert (2 ^ 52 * (100 * 2 ^ 46) <= Zpos P) by (rewrite EP; apply Z.mul_le_mono_nonneg_r; lia).
      lia.
    - destruct (Z_lt_le_dec 106 D) as [Hc|]; [exfalso|lia].
      assert (2 ^ 106 <= 2 ^ (D - 1)) by (apply pow2_le; lia).
      assert (Zpos P < 2 ^ 53 * (100 * 2 ^ 46)) by (rewrite EP; apply Z.mul_lt_mono_pos_r; lia).
      lia. }
  destruct (binary_round_aux_normal false (Zpos P) (e + -46) loc_Exact)
    as (m' & e' & Hr & He' & Hm' & Hb); fold D; try lia.
  fold D in He', Hb. set (k := D - 53) in *.
  exists m', e'. rewrite Hr.
  replace (e' <=? 971) with true by (symmetry; apply Z.leb_le; unfold k in He'; lia).
  split; [reflexivity|].
  unfold mag.
  set (e0 := e + -46) in *.
  assert (Hk : 0 <= k) by (unfold k; lia).
  pose proof (pow2_pos k Hk) as Hpk.
  pose proof (pow2_pos (e0 + 1074) ltac:(unfold e0; lia)) as HpY.
  replace (e' + 1074) with ((e' - e0) + (e0 + 1074)) by lia.
  rewrite (Z.pow_add_r 2 (e' - e0) (e0 + 1074)) by (unfold e0; lia).
  pose proof (div_pow2_lower (Zpos P) k Hk) as Hd.
  destruct Hb as [Hb _].
  assert (H1 : (Zpos P - 2 ^ k) * 2 ^ (e0 + 1074) <= Zpos m' * 2 ^ (e' - e0) * 2 ^ (e0 + 1074)).
  { apply Z.mul_le_mono_nonneg_r; [apply Z.lt_le_incl; exact HpY|].
    apply Z.le_trans with (2 := Hb). apply Z.lt_le_incl. exact Hd. }
  rewrite Z.mul_sub_distr_r in H1.
  assert (EkY : 2 ^ k * 2 ^ (e0 + 1074) <= 2 ^ 9 * 2 ^ 1020).
  { rewrite <- !Z.pow_add_r by (unfold e0; lia). apply pow2_le. unfold k, e0. lia. }
  assert (EPY : Zpos P * 2 ^ (e0 + 1074) = 100 * (Zpos m * 2 ^ (e + 1074))).
  { rewrite EP. replace (e + 1074) with (46 + (e0 + 1074)) by (unfold e0; lia).
    rewrite (Z.pow_add_r 2 46 (e0 + 1074)) by (unfold e0; lia). ring. }
  rewrite EPY in H1. rewrite (Z.mul_assoc (Zpos m')).
  revert H1 EkY. clear.
  generalize (Zpos m' * 2 ^ (e' - e0) * 2 ^ (e0 + 1074)) (Zpos m * 2 ^ (e + 1074))
             (2 ^ k * 2 ^ (e0 + 1074)) (2 ^ 1020).
  intros R Bm K Q. lia.
Qed.

(** ** The clamp [Math.max(0, Math.min(100, x))] *)

Lemma Math_min_100 x :
  JS.Math_min [100%float; x] =
  if is_nan x then nan else if (x <? 100)%float then x else 100%float.
Proof.
  unfold JS.Math_min.
  change (JS.Math_min_from infinity [100%float; x]) with (JS.Math_min_from 100%float [x]).
  cbn [JS.Math_min_from].
  change (JS.is_pos_zero 100%float) with false. rewrite andb_false_r. reflexivity.
Qed.

Lemma Math_max_0 y :
  JS.Math_max [0%float; y] =
  if is_nan y then nan else if (0 <? y)%float then y else 0%float.
Proof.
  unfold JS.Math_max.
  change (JS.Math_max_from neg_infinity [0%float; y]) with (JS.Math_max_from 0%float [y]).
  cbn [JS.Math_max_from].
  change (JS.is_neg_zero 0%float) with false. rewrite andb_false_r. reflexivity.
Qed.

Lemma clamp_eq x :
  JS.Math_max [0%float; JS.Math_min [100%float; x]] =
  if is_nan x then nan
  else if (x <? 100)%float then (if (0 <? x)%float then x else 0%float)
       else 100%float.
Proof.
  rewrite Math_max_0, Math_min_100.
  destruct (is_nan x) eqn:Hn; [reflexivity|].
  destruct (x <? 100)%float; [rewrite Hn|]; reflexivity.
Qed.

(** ** Comparisons read on [spec_float] *)

Lemma ltb_finite x y mx ex my ey :
  Prim2SF x = S754_finite false mx ex -> Prim2SF y = S754_finite false my ey ->
  (x <? y)%float = (mag mx ex <? mag my ey).
Proof.
  intros Hx Hy. rewrite ltb_spec, Hx, Hy. unfold SFltb.
  rewrite SFcompare_mag by eauto using Prim2SF_bounded. reflexivity.
Qed.

Lemma leb_finite x y mx ex my ey :
  Prim2SF x = S754_finite false mx ex -> Prim2SF y = S754_finite false my ey ->
  (x <=? y)%float = (mag mx ex <=? mag my ey).
Proof.
  intros Hx Hy. rewrite leb_spec, Hx, Hy. unfold SFleb.
  rewrite SFcompare_mag by eauto using Prim2SF_bounded.
  unfold Z.leb. destruct (mag mx ex ?= mag my ey); reflexivity.
Qed.

Lemma is_nan_spec x : is_nan x = match Prim2SF x with S754_nan => true | _ => false end.
Proof.
  unfold is_nan. rewrite eqb_spec. unfold SFeqb, SFcompare.
  destruct (Prim2SF x) as [s|s| |s m e]; try reflexivity.
  - destruct s; reflexivity.
  - rewrite Z.compare_refl, Pos.compare_cont_refl. destruct s; reflexivity.
Qed.

(** A number that is at least zero and not NaN: a zero, a positive finite
    value or +Infinity. *)
Lemma leb_zero_inv d :
  (0 <=? d)%float = true ->
  (exists s, Prim2SF d = S754_zero s)
  \/ (exists m e, Prim2SF d = S754_finite false m e)
  \/ Prim2SF d = S754_infinity false.
Proof.
  rewrite leb_spec, Prim2SF_zero. unfold SFleb, SFcompare.
  destruct (Prim2SF d) as [s|s| |s m e]; intros H.
  - left. eauto.
  - destruct s; [discriminate|]. right. right. reflexivity.
  - discriminate.
  - destruct s; [discriminate|]. right. left. eauto.
Qed.

(** ** Rounding to two decimals, for values in [[0, 100]] *)

Lemma mag_hundred : mag hundred_m (-46) = 100 * 2 ^ 54 * 2 ^ 1020.
Proof.
  unfold mag. change (-46 + 1074) with (8 + 1020).
  rewrite Z.pow_add_r by lia. reflexivity.
Qed.

Lemma percentage_table :
  forallb (fun i =>
             let n := Z.of_nat i in
             let v := SF2Prim (JS.decimal_value false n 2) in
             (0 <=? v)%float && (v <=? 100)%float && negb (v <? 0)%float
             && (if 5200 <=? n then (52 <=? v)%float else true))
          (seq 0 (Z.to_nat 10001)) = true.
Proof. vm_compute. reflexivity. Qed.

Lemma percentage_range n :
  0 <= n <= 10000 ->
  let v := SF2Prim (JS.decimal_value false n 2) in
  (0 <=? v)%float = true /\ (v <=? 100)%float = true /\ (v <? 0)%float = false
  /\ (5200 <= n -> (52 <=? v)%float = true).
Proof.
  intros Hn. pose proof percentage_table as T.
  rewrite forallb_forall in T.
  specialize (T (Z.to_nat n)).
  rewrite Z2Nat.id in T by lia.
  assert (Hin : In (Z.to_nat n) (seq 0 (Z.to_nat 10001))) by (apply in_seq; lia).
  specialize (T Hin). cbv zeta in T.
  rewrite !andb_true_iff, negb_true_iff in T.
  destruct T as [[[A B] C] D].
  cbv zeta. repeat split; try assumption.
  intros H. apply Z.leb_le in H. now rewrite H in D.
Qed.

Lemma toFixed2_percentage c mc ec :
  Prim2SF c = S754_finite false mc ec ->
  mag mc ec <= mag hundred_m (-46) ->
  exists n, JS.toFixed c 2 = JS.FixedDigits false n 2 /\ 0 <= n <= 10000
            /\ (936748722493062488 * 2 ^ 1020 <= mag mc ec -> 5200 <= n).
Proof.
  intros Hc Hle.
  pose proof (Prim2SF_bounded _ _ _ _ Hc) as B.
  assert (Hsmall : ec <= -46).
  { destruct (Z_le_gt_dec ec (-46)) as [|Hg]; [assumption|exfalso].
    pose proof (mag_lt_of_exp hundred_m (-46) mc ec eq_refl B ltac:(lia)). lia. }
  apply bounded_inv in B as (He & Hu & Hl).
  set (t := - ec).
  assert (Ht : 46 <= t <= 1074) by (unfold t; lia).
  pose proof (pow2_pos t ltac:(lia)) as HX.
  pose proof (pow2_pos (ec + 1074) ltac:(lia)) as HY.
  pose proof (pow2_pos 1020 ltac:(lia)) as HQ.
  assert (EXY : 2 ^ t * 2 ^ (ec + 1074) = 2 ^ 54 * 2 ^ 1020).
  { rewrite <- !Z.pow_add_r by lia. f_equal. unfold t. lia. }
  rewrite mag_hundred in Hle. unfold mag in *.
  assert (Hm : Zpos mc <= 100 * 2 ^ t).
  { apply (Z.mul_le_mono_pos_r _ _ (2 ^ (ec + 1074)) HY).
    rewrite <- Z.mul_assoc, EXY. lia. }
  unfold JS.toFixed. rewrite Hc.
  assert (E21 : JS.at_least_1e21 mc ec = false).
  { unfold JS.at_least_1e21.
    replace (0 <=? ec) with false by (symmetry; apply Z.leb_gt; lia).
    apply Z.leb_gt. fold t.
    change (2 ^ 53) with 9007199254740992 in Hu.
    change (10 ^ 21) with 1000000000000000000000. lia. }
  rewrite E21.
  exists (JS.nearest_scaled mc ec 2). split; [reflexivity|].
  unfold JS.nearest_scaled.
  replace (0 <=? ec) with false by (symmetry; apply Z.leb_gt; lia).
  fold t. change (10 ^ 2) with 100.
  replace (2 ^ (t + 1)) with (2 * 2 ^ t) by (rewrite Z.pow_add_r by lia; change (2 ^ 1) with 2; lia).
  split; [split|].
  - apply Z.div_pos; lia.
  - assert ((2 * (Zpos mc * 100) + 2 ^ t) / (2 * 2 ^ t) < 10001)
      by (apply Z.div_lt_upper_bound; lia).
    lia.
  - intros Hlo. apply Z.div_le_lower_bound; [lia|].
    assert (H1 : 10399 * 2 ^ t * 2 ^ (ec + 1074) <= 200 * Zpos mc * 2 ^ (ec + 1074)).
    { rewrite <- (Z.mul_assoc 10399), EXY, <- (Z.mul_assoc 200).
      revert Hlo HQ. change (2 ^ 54) with 18014398509481984.
      generalize (Zpos mc * 2 ^ (ec + 1074)) (2 ^ 1020). intros; lia. }
    apply Z.mul_le_mono_pos_r in H1; [|assumption]. lia.
Qed.

(** ** The match percentage as a function of the raw percentage *)

Lemma round2_hundred : JS.Number_of (JS.toFixed 100%float 2) = 100%float.
Proof. vm_compute. reflexivity. Qed.

Lemma round2_zero : JS.Number_of (JS.toFixed 0%float 2) = 0%float.
Proof. vm_compute. reflexivity. Qed.

Lemma percentage_of_positive r m e :
  Prim2SF r = S754_finite false m e ->
  let mp := JS.Number_of (JS.toFixed (JS.Math_max [0%float; JS.Math_min [100%float; r]]) 2) in
  (0 <=? mp)%float = true /\ (mp <=? 100)%float = true /\ (mp <? 0)%float = false
  /\ (936748722493062488 * 2 ^ 1020 <= mag m e -> (52 <=? mp)%float = true).
Proof.
  intros Hr. cbv zeta. rewrite clamp_eq.
  rewrite is_nan_spec, Hr.
  assert (H0 : (0 <? r)%float = true) by (rewrite ltb_spec, Prim2SF_zero, Hr; reflexivity).
  rewrite H0.
  destruct (r <? 100)%float eqn:Hlt.
  - rewrite (ltb_finite r 100%float m e hundred_m (-46) Hr Prim2SF_hundred) in Hlt.
    apply Z.ltb_lt in Hlt.
    destruct (toFixed2_percentage r m e Hr ltac:(lia)) as (n & En & Hn & Hlo).
    rewrite En. unfold JS.Number_of.
    destruct (percentage_range n Hn) as (A & B & C & D).
    repeat split; try assumption. intros H. apply D, Hlo, H.
  - rewrite round2_hundred. repeat split; reflexivity.
Qed.

Lemma percentage_of_nonpositive r :
  (exists s, Prim2SF r = S754_zero s) \/ has_sign true (Prim2SF r) ->
  JS.Math_max [0%float; JS.Math_min [100%float; r]] = 0%float.
Proof.
  intros H. rewrite clamp_eq, is_nan_spec, !ltb_spec, Prim2SF_zero, Prim2SF_hundred.
  destruct H as [[s Hs]|Hs].
  - rewrite Hs. destruct s; reflexivity.
  - destruct (Prim2SF r) as [s|s| |s m e]; simpl in Hs; try contradiction; subst s; reflexivity.
Qed.

Lemma percentage_of_infinity r :
  Prim2SF r = S754_infinity false ->
  JS.Math_max [0%float; JS.Math_min [100%float; r]] = 100%float.
Proof.
  intros H. rewrite clamp_eq, is_nan_spec, !ltb_spec, Prim2SF_hundred, H. reflexivity.
Qed.

(** ** [1 - d] and [(1 - d) * 100] *)

Lemma sub_one_above m e :
  bounded prec emax m e = true ->
  mag one_m (-52) <= mag m e ->
  let r := SFsub prec emax (S754_finite false one_m (-52)) (S754_finite false m e) in
  r = S754_zero false \/ has_sign true r.
Proof.
  intros B Hle.
  assert (Hbig : -52 <= e).
  { destruct (Z_le_gt_dec (-52) e) as [|Hg]; [assumption|exfalso].
    pose proof (mag_lt_of_exp m e one_m (-52) B eq_refl ltac:(lia)). lia. }
  apply bounded_inv in B as (He & Hu & Hl).
  cbv zeta. unfold SFsub. rewrite Z.min_l by lia. unfold cond_Zopp.
  rewrite !shl_align_le by lia.
  change (-52 - -52) with 0. change (2 ^ 0) with 1. rewrite Z.mul_1_r.
  assert (Hz : Zpos one_m - Zpos m * 2 ^ (e - -52) <= 0).
  { unfold mag in Hle.
    replace (e + 1074) with ((e - -52) + (-52 + 1074)) in Hle by lia.
    rewrite (Z.pow_add_r 2 (e - -52)) in Hle by lia.
    rewrite Z.mul_assoc in Hle.
    apply Z.mul_le_mono_pos_r in Hle; [lia|]. apply pow2_pos. lia. }
  destruct (Zpos one_m - Zpos m * 2 ^ (e - -52)) as [|q|q]; try lia.
  - left. reflexivity.
  - right. apply binary_round_sign.
Qed.

Lemma mul_hundred_sign x :
  x = S754_zero false \/ has_sign true x ->
  let r := SFmul prec emax x (S754_finite false hundred_m (-46)) in
  (exists s, r = S754_zero s) \/ has_sign true r.
Proof.
  intros [->|H]; cbv zeta.
  - left. eexists. reflexivity.
  - destruct x as [s|s| |s m e]; simpl in H; try contradiction; subst s.
    + left. eexists. reflexivity.
    + right. reflexivity.
    + right. apply binary_round_aux_sign. lia.
Qed.

(** Not NaN is preserved by [1 - x] and by [x * 100]. *)
Lemma sub_one_not_nan x :
  (exists s, has_sign s x) ->
  exists s, has_sign s (SFsub prec emax (S754_finite false one_m (-52)) x).
Proof.
  intros [s H]. destruct x as [sx|sx| |sx m e]; simpl in H; try contradiction.
  - exists false. reflexivity.
  - exists (negb sx). reflexivity.
  - unfold SFsub.
    destruct (_ - _) as [|q|q]; unfold binary_normalize.
    + exists false. reflexivity.
    + exists false. apply binary_round_sign.
    + exists true. apply binary_round_sign.
Qed.

Lemma mul_hundred_not_nan x :
  (exists s, has_sign s x) ->
  exists s, has_sign s (SFmul prec emax x (S754_finite false hundred_m (-46))).
Proof.
  intros [s H]. destruct x as [sx|sx| |sx m e]; simpl in H; try contradiction.
  - eexists. reflexivity.
  - eexists. reflexivity.
  - eexists. apply binary_round_aux_sign. lia.
Qed.

Lemma not_nan_has_sign x :
  is_nan x = false -> exists s, has_sign s (Prim2SF x).
Proof.
  rewrite is_nan_spec. destruct (Prim2SF x); try discriminate; intros _; eexists; reflexivity.
Qed.

(** The match percentage is never negative, and lies in [[0, 100]] unless
    the raw percentage is NaN. *)
Lemma percentage_range_any r :
  let mp := JS.Number_of (JS.toFixed (JS.Math_max [0%float; JS.Math_min [100%float; r]]) 2) in
  (mp <? 0)%float = false
  /\ (is_nan r = false -> (0 <=? mp)%float = true /\ (mp <=? 100)%float = true).
Proof.
  cbv zeta. destruct (Prim2SF r) as [s|s| |s m e] eqn:Hr.
  - rewrite percentage_of_nonpositive by (left; eauto). rewrite round2_zero.
    repeat split; reflexivity.
  - destruct s.
    + rewrite percentage_of_nonpositive by (right; rewrite Hr; reflexivity).
      rewrite round2_zero. repeat split; reflexivity.
    + rewrite percentage_of_infinity by assumption. rewrite round2_hundred.
      repeat split; reflexivity.
  - rewrite clamp_eq, is_nan_spec, Hr. split; [reflexivity|discriminate].
  - destruct s.
    + rewrite percentage_of_nonpositive by (right; rewrite Hr; reflexivity).
      rewrite round2_zero. repeat split; reflexivity.
    + destruct (percentage_of_positive r m e Hr) as (A & B & C & _).
      repeat split; assumption.
Qed.

(** ** The raw percentage [(1 - d) * 100] *)

Lemma raw_percentage_spec d :
  Prim2SF ((1 - d) * 100)%float =
  SFmul prec emax (SFsub prec emax (S754_finite false one_m (-52)) (Prim2SF d))
        (S754_finite false hundred_m (-46)).
Proof. rewrite mul_spec, sub_spec, Prim2SF_one, Prim2SF_hundred. reflexivity. Qed.

Lemma raw_percentage_verified d :
  (0 <=? d)%float = true -> (d <? Server.FACE_MATCH_THRESHOLD)%float = true ->
  exists m e, Prim2SF ((1 - d) * 100)%float = S754_finite false m e
              /\ 936748722493062488 * 2 ^ 1020 <= mag m e.
Proof.
  intros Hge Hlt. rewrite raw_percentage_spec.
  assert (H1 : exists m1 e1,
             SFsub prec emax (S754_finite false one_m (-52)) (Prim2SF d) = S754_finite false m1 e1
             /\ -53 <= e1 <= -52 /\ 2 ^ 52 <= Zpos m1 < 2 ^ 53
             /\ 9367487224930630 * 2 ^ 1020 <= mag m1 e1).
  { destruct (leb_zero_inv d Hge) as [[s Hd]|[(m & e & Hd)|Hd]].
    - rewrite Hd. exists one_m, (-52). split; [reflexivity|].
      split; [lia|]. split; [split; reflexivity|].
      unfold mag. change (-52 + 1074) with (2 + 1020).
      rewrite Z.pow_add_r by lia. pose proof (pow2_pos 1020 ltac:(lia)) as HQ.
      change (Zpos one_m) with 4503599627370496. change (2 ^ 2) with 4.
      revert HQ. generalize (2 ^ 1020). intros; lia.
    - rewrite (ltb_finite d _ m e thr_m (-54) Hd Prim2SF_threshold) in Hlt.
      apply Z.ltb_lt in Hlt. rewrite Hd.
      apply sub_one_below_threshold; [eapply Prim2SF_bounded; eassumption|assumption].
    - rewrite ltb_spec, Hd, Prim2SF_threshold in Hlt. discriminate. }
  destruct H1 as (m1 & e1 & E1 & He1 & Hm1 & Hb1). rewrite E1.
  destruct (mul_hundred_lower m1 e1 Hm1 He1) as (m2 & e2 & E2 & Hb2).
  exists m2, e2. split; [assumption|].
  pose proof (pow2_pos 1020 ltac:(lia)) as HQ.
  revert Hb1 Hb2 HQ. generalize (mag m1 e1) (mag m2 e2) (2 ^ 1020). intros; lia.
Qed.

Lemma eqb_zero_inv d :
  (d =? 0)%float = true -> exists s, Prim2SF d = S754_zero s.
Proof.
  rewrite eqb_spec, Prim2SF_zero. unfold SFeqb, SFcompare.
  destruct (Prim2SF d) as [s|s| |s m e]; intros H; try discriminate; eauto.
  - destruct s; discriminate.
  - destruct s; discriminate.
Qed.

Lemma raw_percentage_zero d :
  (d =? 0)%float = true ->
  ((1 - d) * 100)%float = 100%float /\ (d <? Server.FACE_MATCH_THRESHOLD)%float = true.
Proof.
  intros H. destruct (eqb_zero_inv d H) as [s Hd]. split.
  - apply Prim2SF_inj. rewrite raw_percentage_spec, Hd. reflexivity.
  - rewrite ltb_spec, Hd, Prim2SF_threshold. reflexivity.
Qed.

Lemma raw_percentage_far d :
  (1 <=? d)%float = true ->
  JS.Math_max [0%float; JS.Math_min [100%float; ((1 - d) * 100)%float]] = 0%float.
Proof.
  intros H. apply percentage_of_nonpositive. rewrite raw_percentage_spec.
  apply mul_hundred_sign.
  rewrite leb_spec, Prim2SF_one in H.
  destruct (Prim2SF d) as [s|s| |s m e] eqn:Hd.
  - discriminate.
  - destruct s; [discriminate|]. right. reflexivity.
  - discriminate.
  - destruct s; [discriminate|].
    apply sub_one_above.
    + eapply Prim2SF_bounded; eassumption.
    + unfold SFleb in H.
      rewrite SFcompare_mag in H by (reflexivity || (eapply Prim2SF_bounded; eassumption)).
      destruct (Z.compare_spec (mag one_m (-52)) (mag m e)) as [C|C|C];
        try discriminate; revert C; generalize (mag one_m (-52)) (mag m e); intros; lia.
Qed.

Lemma raw_percentage_not_nan d :
  is_nan d = false -> is_nan ((1 - d) * 100)%float = false.
Proof.
  intros H. apply not_nan_has_sign in H.
  apply sub_one_not_nan, mul_hundred_not_nan in H.
  rewrite is_nan_spec, raw_percentage_spec.
  destruct H as [s H]. destruct (SFmul _ _ _ _); simpl in H; try contradiction; reflexivity.
Qed.

(** ** The Euclidean distance *)

Lemma sum_squares_comm a : forall b acc,
  fold_left (fun res diff => (res + JS.Math_pow2 diff)%float)
            (map (fun p => (fst p - snd p)%float) (combine a b)) acc
  = fold_left (fun res diff => (res + JS.Math_pow2 diff)%float)
              (map (fun p => (fst p - snd p)%float) (combine b a)) acc.
Proof.
  induction a as [|x a IH]; intros [|y b] acc; try reflexivity.
  cbn [combine map fold_left fst snd].
  replace (acc + JS.Math_pow2 (x - y))%float with (acc + JS.Math_pow2 (y - x))%float
    by (unfold JS.Math_pow2; now rewrite (sub_square_comm x y)).
  apply IH.
Qed.

Lemma euclideanDistance_comm a b :
  faceapi.euclideanDistance a b = faceapi.euclideanDistance b a.
Proof.
  unfold faceapi.euclideanDistance.
  rewrite (Nat.eqb_sym (List.length b)).
  destruct (Nat.eqb (List.length a) (List.length b)); [|reflexivity].
  simpl. now rewrite sum_squares_comm.
Qed.

Lemma euclideanDistance_defined a b :
  List.length a = List.length b ->
  exists dist, faceapi.euclideanDistance a b = Normal dist.
Proof.
  intros H. unfold faceapi.euclideanDistance.
  rewrite H, Nat.eqb_refl. simpl. eauto.
Qed.

Lemma euclideanDistance_length a b dist :
  faceapi.euclideanDistance a b = Normal dist -> List.length a = List.length b.
Proof.
  unfold faceapi.euclideanDistance.
  destruct (Nat.eqb (List.length a) (List.length b)) eqn:E; simpl; [|discriminate].
  intros _. now apply Nat.eqb_eq.
Qed.

(** ** Distances of finite embeddings *)

Lemma Prim2SF_infinity : Prim2SF infinity = S754_infinity false.
Proof. reflexivity. Qed.

Lemma finite_inv x :
  Binary64.finite x = true ->
  (exists s, Prim2SF x = S754_zero s) \/ (exists s m e, Prim2SF x = S754_finite s m e).
Proof.
  unfold Binary64.finite, is_finite, is_infinity.
  rewrite negb_true_iff, orb_false_iff, is_nan_spec, eqb_spec, abs_spec, Prim2SF_infinity.
  destruct (Prim2SF x) as [s|s| |s m e]; intros [A B]; try discriminate; eauto.
Qed.

Lemma SFsub_finite_not_nan x y :
  (exists s, x = S754_zero s) \/ (exists s m e, x = S754_finite s m e) ->
  (exists s, y = S754_zero s) \/ (exists s m e, y = S754_finite s m e) ->
  exists s, has_sign s (SFsub prec emax x y).
Proof.
  intros [[sx ->]|(sx & mx & ex & ->)] [[sy ->]|(sy & my & ey & ->)].
  - destruct sx, sy; eexists; reflexivity.
  - eexists; reflexivity.
  - eexists; reflexivity.
  - unfold SFsub.
    destruct (_ - _) as [|q|q]; unfold binary_normalize.
    + exists false. reflexivity.
    + exists false. apply binary_round_sign.
    + exists true. apply binary_round_sign.
Qed.

Lemma SFmul_self_nonneg x :
  (exists s, has_sign s x) -> has_sign false (SFmul prec emax x x).
Proof.
  intros [s H]. destruct x as [sx|sx| |sx m e]; simpl in H; try contradiction.
  - destruct sx; reflexivity.
  - destruct sx; reflexivity.
  - unfold SFmul. rewrite xorb_nilpotent. apply binary_round_aux_sign. lia.
Qed.

Lemma SFadd_nonneg x y :
  has_sign false x -> has_sign false y -> has_sign false (SFadd prec emax x y).
Proof.
  destruct x as [sx|sx| |sx mx ex], y as [sy|sy| |sy my ey]; simpl;
    try contradiction; intros -> ->; try reflexivity.
  apply binary_round_sign.
Qed.

Lemma SFsqrt_nonneg x : has_sign false x -> has_sign false (SFsqrt prec emax x).
Proof.
  destruct x as [sx|sx| |sx m e]; simpl; try contradiction; intros ->; try reflexivity.
  unfold SFsqrt_core_binary.
  destruct (Z.sqrtrem _) as [q r] eqn:E.
  apply binary_round_aux_sign.
  pose proof (Z.sqrtrem_sqrt
                match e - 2 * Z.min (fexp prec emax (Z.div2 (Zdigits2 (Zpos m) + e + 1))) (Z.div2 e) with
                | 0 => Zpos m
                | Zpos _ => Z.shiftl (Zpos m) (e - 2 * Z.min (fexp prec emax (Z.div2 (Zdigits2 (Zpos m) + e + 1))) (Z.div2 e))
                | Zneg _ => 0
                end) as S.
  rewrite E in S. simpl in S. subst q. apply Z.sqrt_nonneg.
Qed.

Lemma sum_squares_nonneg a : forall b acc,
  Forall (fun x => Binary64.finite x = true) a ->
  Forall (fun x => Binary64.finite x = true) b ->
  has_sign false (Prim2SF acc) ->
  has_sign false
    (Prim2SF (fold_left (fun res diff => (res + JS.Math_pow2 diff)%float)
                        (map (fun p => (fst p - snd p)%float) (combine a b)) acc)).
Proof.
  induction a as [|x a IH]; intros [|y b] acc Ha Hb Hacc; try exact Hacc.
  cbn [combine map fold_left fst snd].
  inversion Ha as [|? ? Hx Ha']; inversion Hb as [|? ? Hy Hb']; subst.
  apply IH; try assumption.
  unfold JS.Math_pow2. rewrite add_spec, mul_spec, sub_spec.
  apply SFadd_nonneg; [assumption|].
  apply SFmul_self_nonneg, SFsub_finite_not_nan; apply finite_inv; assumption.
Qed.

Lemma has_sign_false_nonneg d :
  has_sign false (Prim2SF d) -> is_nan d = false /\ (0 <=? d)%float = true.
Proof.
  rewrite is_nan_spec, leb_spec, Prim2SF_zero.
  destruct (Prim2SF d) as [s|s| |s m e]; simpl; try contradiction; intros ->; split; reflexivity.
Qed.

Lemma euclideanDistance_nonneg a b dist :
  Forall (fun x => Binary64.finite x = true) a ->
  Forall (fun x => Binary64.finite x = true) b ->
  faceapi.euclideanDistance a b = Normal dist ->
  is_nan dist = false /\ (0 <=? dist)%float = true.
Proof.
  intros Ha Hb. unfold faceapi.euclideanDistance.
  destruct (negb _); [discriminate|]. intros H. injection H as <-.
  apply has_sign_false_nonneg. unfold JS.Math_sqrt. rewrite sqrt_spec.
  apply SFsqrt_nonneg, sum_squares_nonneg; try assumption. reflexivity.
Qed.

(** * Properties of the server *)

Import Server.
Local Open Scope string_scope.
Local Open Scope list_scope.

(** ** Traces *)

Lemma detector_calls_app a b : detector_calls (a ++ b) = (detector_calls a + detector_calls b)%nat.
Proof. unfold detector_calls. now rewrite filter_app, length_app. Qed.

Lemma decoder_calls_app a b : decoder_calls (a ++ b) = (decoder_calls a + decoder_calls b)%nat.
Proof. unfold decoder_calls. now rewrite filter_app, length_app. Qed.

Lemma fetch_calls_app a b : fetch_calls (a ++ b) = (fetch_calls a + fetch_calls b)%nat.
Proof. unfold fetch_calls. now rewrite filter_app, length_app. Qed.

Lemma model_loads_app a b : model_loads (a ++ b) = (model_loads a + model_loads b)%nat.
Proof. unfold model_loads. now rewrite filter_app, length_app. Qed.

(** [loadModels] only logs and loads: the events it adds, whatever the
    outcome of the loads. *)
Lemma loadModels_events w st :
  exists evs, trace (snd (loadModels w st)) = trace st ++ evs
              /\ detector_calls evs = 0%nat /\ decoder_calls evs = 0%nat
              /\ fetch_calls evs = 0%nat.
Proof.
  unfold loadModels, bind, get_modelsLoaded, net_loadFromDisk, bind, emit, await,
    console_log, emit, set_modelsLoaded, ret.
  destruct (modelsLoaded st).
  - exists []. simpl. rewrite app_nil_r. auto.
  - simpl.
    destruct (loadFromDisk w ssdMobilenetv1 (modelPath w)); simpl;
      [destruct (loadFromDisk w faceLandmark68Net (modelPath w)); simpl;
       [destruct (loadFromDisk w faceRecognitionNet (modelPath w)); simpl|]|];
      rewrite <- ?app_assoc; eexists; (split; [reflexivity|]); simpl; auto.
Qed.

Lemma loadModels_loaded w st :
  modelsLoaded st = true -> loadModels w st = (Normal tt, st).
Proof.
  intros H. unfold loadModels, bind, get_modelsLoaded. rewrite H. reflexivity.
Qed.

(** ** [extractFaceData] *)

Lemma extractFaceData_steps w image st :
  extractFaceData w image st =
  match loadModels w st with
  | (Throw e, st1) => (Throw e, st1)
  | (Normal _, st1) =>
      if ((width image <? MIN_IMAGE_SIZE) || (height image <? MIN_IMAGE_SIZE))%Z then
        (Normal (Rejected "Image too low quality. Use better camera."), st1)
      else
        let st2 := record (EvDetect image detectorOptions) st1 in
        match detectAllFaces w image detectorOptions with
        | Normal detections => (Normal (singleFace detections), st2)
        | Throw e => (Throw e, st2)
        end
  end.
Proof.
  unfold extractFaceData, bind at 1.
  destruct (loadModels w st) as [[u|e] st1]; [|reflexivity].
  destruct ((width image <? MIN_IMAGE_SIZE) || (height image <? MIN_IMAGE_SIZE))%Z;
    [reflexivity|].
  unfold bind, detect, bind, emit, await, ret. simpl.
  destruct (detectAllFaces w image detectorOptions); reflexivity.
Qed.

Lemma singleFace_messages detections msg :
  singleFace detections = Rejected msg ->
  In msg [ "No face detected"; "Multiple faces detected";
           "Face too small. Move closer to camera." ].
Proof.
  unfold singleFace. destruct detections as [[|face others]|].
  - intros H; injection H as <-. simpl; auto.
  - destruct (1 <? _)%Z.
    + intros H; injection H as <-. simpl; auto.
    + destruct (_ <? _)%float; [|discriminate].
      intros H; injection H as <-. simpl; auto.
  - intros H; injection H as <-. simpl; auto.
Qed.

Lemma singleFace_not_low_quality detections :
  singleFace detections <> Rejected "Image too low quality. Use better camera.".
Proof.
  intros H. apply singleFace_messages in H. simpl in H.
  destruct H as [H|[H|[H|[]]]]; discriminate.
Qed.

(** Claim C2.  Once the models are loaded and the image has passed the size
    check, the answer of [extractFaceData] depends on the detector's list in
    this order: an empty list is rejected with "No face detected"; a list of
    more than one face with "Multiple faces detected", whatever the boxes; a
    single face whose box width is strictly below [MIN_FACE_WIDTH] (120) with
    "Face too small"; any other single face is accepted with its descriptor,
    in particular one whose box is exactly 120 wide. *)
Theorem single_face_enforcer w image st detections :
  fst (loadModels w st) = Normal tt ->
  (MIN_IMAGE_SIZE <= width image /\ MIN_IMAGE_SIZE <= height image)%Z ->
  detectAllFaces w image detectorOptions = Normal (Some detections) ->
  exists r,
    fst (extractFaceData w image st) = Normal r
    /\ (detections = [] -> r = Rejected "No face detected")
    /\ ((1 < List.length detections)%nat -> r = Rejected "Multiple faces detected")
    /\ (forall face, detections = [face] ->
          ((box_width (detection_box face) <? MIN_FACE_WIDTH)%float = true ->
             r = Rejected "Face too small. Move closer to camera.")
          /\ ((box_width (detection_box face) <? MIN_FACE_WIDTH)%float = false ->
                r = Extracted (descriptor face))
          /\ (box_width (detection_box face) = MIN_FACE_WIDTH ->
                r = Extracted (descriptor face))).
Proof.
  intros Hload [Hw Hh] Hdet.
  rewrite extractFaceData_steps.
  destruct (loadModels w st) as [[u|e] st1]; simpl in Hload; [|discriminate].
  replace (width image <? MIN_IMAGE_SIZE)%Z with false by (symmetry; apply Z.ltb_ge; assumption).
  replace (height image <? MIN_IMAGE_SIZE)%Z with false by (symmetry; apply Z.ltb_ge; assumption).
  cbv zeta. rewrite Hdet. cbn [orb fst].
  exists (singleFace (Some detections)). split; [reflexivity|].
  split; [|split].
  - intros ->. reflexivity.
  - intros Hlen. destruct detections as [|f1 [|f2 rest]]; simpl in Hlen; try lia.
    unfold singleFace.
    replace (1 <? Z.of_nat (List.length (f1 :: f2 :: rest)))%Z with true; [reflexivity|].
    symmetry. apply Z.ltb_lt. simpl List.length. lia.
  - intros face ->. unfold singleFace. cbn [List.length Z.of_nat Z.ltb Z.compare Pos.compare Pos.compare_cont].
    split; [|split].
    + intros ->. reflexivity.
    + intros ->. reflexivity.
    + intros ->. reflexivity.
Qed.

Lemma single_face_enforcer_witness :
  exists r,
    fst (extractFaceData (Sample.world 640 480 [120%float]) (mkImage 640 480 []) initial)
    = Normal r
    /\ r = Extracted (descriptor (Sample.face_of 120%float (mkImage 640 480 []))).
Proof.
  destruct (single_face_enforcer (Sample.world 640 480 [120%float]) (mkImage 640 480 [])
              initial [Sample.face_of 120%float (mkImage 640 480 [])])
    as (r & Hr & _ & _ & Hone).
  - reflexivity.
  - split; discriminate.
  - reflexivity.
  - exists r. split; [exact Hr|].
    destruct (Hone _ eq_refl) as (_ & _ & Heq). apply Heq. reflexivity.
Defined.

(** Claim C3.  An image narrower or lower than [MIN_IMAGE_SIZE] (300) never
    reaches the detector: [extractFaceData] adds no detector call to the
    trace.  When the models are loaded (or load without a fault), the answer
    is the "Image too low quality" rejection exactly when the width or the
    height is below 300; nothing else about the image is looked at. *)
Theorem quality_gate w image st :
  ((width image < MIN_IMAGE_SIZE \/ height image < MIN_IMAGE_SIZE)%Z ->
     detector_calls (trace (snd (extractFaceData w image st))) = detector_calls (trace st))
  /\ (fst (loadModels w st) = Normal tt ->
        (fst (extractFaceData w image st)
         = Normal (Rejected "Image too low quality. Use better camera.")
         <-> (width image < MIN_IMAGE_SIZE \/ height image < MIN_IMAGE_SIZE)%Z)).
Proof.
  rewrite extractFaceData_steps.
  destruct (loadModels_events w st) as (evs & Etr & Hdet & _).
  destruct (loadModels w st) as [[u|e] st1]; cbn [fst snd] in *.
  - destruct ((width image <? MIN_IMAGE_SIZE) || (height image <? MIN_IMAGE_SIZE))%Z eqn:Hlow.
    + split.
      * intros _. cbn [snd]. rewrite Etr, detector_calls_app, Hdet. lia.
      * intros _. cbn [fst]. split; [intros _|reflexivity].
        apply orb_true_iff in Hlow. destruct Hlow as [H|H]; apply Z.ltb_lt in H; auto.
    + apply orb_false_iff in Hlow. destruct Hlow as [H1 H2].
      apply Z.ltb_ge in H1, H2. split.
      * intros [H|H]; lia.
      * intros _. split.
        -- cbv zeta. destruct (detectAllFaces w image detectorOptions) as [ds|e];
             cbn [fst]; intros H; [|discriminate].
           injection H as H. now apply singleFace_not_low_quality in H.
        -- intros [H|H]; lia.
  - split.
    + intros _. rewrite Etr, detector_calls_app, Hdet. lia.
    + discriminate.
Qed.

Lemma quality_gate_witness :
  let w := Sample.world 200 200 [200%float] in
  let image := mkImage 200 200 [] in
  fst (extractFaceData w image initial)
  = Normal (Rejected "Image too low quality. Use better camera.")
  /\ detector_calls (trace (snd (extractFaceData w image initial))) = 0%nat.
Proof.
  cbv zeta.
  destruct (quality_gate (Sample.world 200 200 [200%float]) (mkImage 200 200 []) initial)
    as [A B].
  split.
  - apply B; [reflexivity|]. left. reflexivity.
  - rewrite A; [reflexivity|]. left. reflexivity.
Defined.

(** ** The monad *)

Lemma bind_normal {A B} (m : M A) (k : A -> M B) st a st' :
  m st = (Normal a, st') -> bind m k st = k a st'.
Proof. intros H. unfold bind. now rewrite H. Qed.

Lemma bind_throw {A B} (m : M A) (k : A -> M B) st e st' :
  m st = (Throw e, st') -> bind m k st = (Throw e, st').
Proof. intros H. unfold bind. now rewrite H. Qed.

(** ** [loadImageFromUrl] and [loadImageFromBuffer] *)

Lemma loadImage_steps w buffer st :
  loadImage w buffer st = (canvas_loadImage w buffer, record (EvLoadImage buffer) st).
Proof.
  unfold loadImage, bind, emit, await.
  destruct (canvas_loadImage w buffer); reflexivity.
Qed.

Lemma loadImageFromUrl_steps w url st :
  loadImageFromUrl w url st =
  let st0 := record (EvFetch url) st in
  match fetch w url with
  | Throw e => (Throw e, st0)
  | Normal res =>
      if res_ok res then
        let st1 := record (EvBuffer url) st0 in
        match res_buffer res with
        | Throw e => (Throw e, st1)
        | Normal buffer => (canvas_loadImage w buffer, record (EvLoadImage buffer) st1)
        end
      else (Throw (JSError "Failed to fetch reference image"), st0)
  end.
Proof.
  unfold loadImageFromUrl, bind at 1, emit. cbv zeta.
  unfold bind at 1, await at 1.
  destruct (fetch w url) as [res|e]; [|reflexivity].
  destruct (res_ok res); [|reflexivity].
  cbn [negb]. unfold bind at 1, emit. unfold bind at 1, await.
  destruct (res_buffer res) as [buffer|e]; [|reflexivity].
  apply loadImage_steps.
Qed.

Lemma record_trace ev st : trace (record ev st) = trace st ++ [ev].
Proof. reflexivity. Qed.

(** A successful fetch-and-decode makes one fetch and one decoder call and
    does not touch the detector. *)
Lemma loadImageFromUrl_calls w url st img st' :
  loadImageFromUrl w url st = (Normal img, st') ->
  decoder_calls (trace st') = S (decoder_calls (trace st))
  /\ detector_calls (trace st') = detector_calls (trace st)
  /\ fetch_calls (trace st') = S (fetch_calls (trace st)).
Proof.
  rewrite loadImageFromUrl_steps. cbv zeta.
  destruct (fetch w url) as [res|e]; [|discriminate].
  destruct (res_ok res); [|discriminate].
  destruct (res_buffer res) as [buffer|e]; [|discriminate].
  intros H. injection H as _ <-.
  rewrite !record_trace, !decoder_calls_app, !detector_calls_app, !fetch_calls_app.
  change (decoder_calls [EvFetch url]) with 0%nat.
  change (decoder_calls [EvBuffer url]) with 0%nat.
  change (decoder_calls [EvLoadImage buffer]) with 1%nat.
  change (detector_calls [EvFetch url]) with 0%nat.
  change (detector_calls [EvBuffer url]) with 0%nat.
  change (detector_calls [EvLoadImage buffer]) with 0%nat.
  change (fetch_calls [EvFetch url]) with 1%nat.
  change (fetch_calls [EvBuffer url]) with 0%nat.
  change (fetch_calls [EvLoadImage buffer]) with 0%nat.
  lia.
Qed.

Lemma extractFaceData_calls w image st :
  decoder_calls (trace (snd (extractFaceData w image st))) = decoder_calls (trace st)
  /\ (detector_calls (trace (snd (extractFaceData w image st))) <= S (detector_calls (trace st)))%nat
  /\ fetch_calls (trace (snd (extractFaceData w image st))) = fetch_calls (trace st).
Proof.
  rewrite extractFaceData_steps.
  destruct (loadModels_events w st) as (evs & Etr & Hdet & Hdec & Hfetch).
  destruct (loadModels w st) as [[u|e] st1]; cbn [fst snd] in *.
  - destruct (_ || _)%bool; cbv zeta.
    + cbn [snd]. rewrite Etr, decoder_calls_app, detector_calls_app, fetch_calls_app. lia.
    + destruct (detectAllFaces w image detectorOptions); cbn [snd];
        rewrite record_trace, Etr, !decoder_calls_app, !detector_calls_app, !fetch_calls_app;
        change (decoder_calls [EvDetect image detectorOptions]) with 0%nat;
        change (detector_calls [EvDetect image detectorOptions]) with 1%nat;
        change (fetch_calls [EvDetect image detectorOptions]) with 0%nat;
        lia.
  - rewrite Etr, decoder_calls_app, detector_calls_app, fetch_calls_app. lia.
Qed.

(** Claim C5.  With both inputs present and the reference image fetched and
    decoded: when [extractFaceData] rejects the reference image, the handler
    answers 400 with "Reference image error: " followed by the reason, and its
    final state is the state reached after the reference stage, so that the
    selfie is neither decoded nor shown to the detector (one decoder call, at
    most one detector call, both for the reference).  Only when the reference
    yields a descriptor is the selfie decoded and extracted, a rejection being
    answered with "Selfie error: " and the reason; only when both yield a
    descriptor is [compareFaces] applied and its result answered with 200. *)
Theorem orchestrator_short_circuit w req st url selfie refImg st1 refData st2 :
  body_referenceImageUrl req = Some url -> truthy (Some url) = true ->
  req_file req = Some selfie ->
  loadImageFromUrl w url st = (Normal refImg, st1) ->
  extractFaceData w refImg st1 = (Normal refData, st2) ->
  (forall reason, refData = Rejected reason ->
     verify w req st
     = (Normal (bad_request ("Reference image error: " ++ reason)%string), st2)
     /\ decoder_calls (trace st2) = S (decoder_calls (trace st))
     /\ (detector_calls (trace st2) <= S (detector_calls (trace st)))%nat)
  /\ (forall refDescriptor, refData = Extracted refDescriptor ->
      forall selfieImg st3 selfieData st4,
        loadImageFromBuffer w (file_buffer selfie) st2 = (Normal selfieImg, st3) ->
        extractFaceData w selfieImg st3 = (Normal selfieData, st4) ->
        (forall reason, selfieData = Rejected reason ->
           verify w req st
           = (Normal (bad_request ("Selfie error: " ++ reason)%string), st4))
        /\ (forall selfieDescriptor result,
              selfieData = Extracted selfieDescriptor ->
              compareFaces refDescriptor selfieDescriptor = Normal result ->
              verify w req st = (Normal (mkResponse 200 (JsonResult result)), st4))).
Proof.
  intros Hurl Htruthy Hfile Href Hext.
  assert (Hbody : verify_body w req st =
                  bind (extractFaceData w refImg)
                    (fun refData =>
                       match refData with
                       | Rejected msg => ret (bad_request ("Reference image error: " ++ msg)%string)
                       | Extracted refDescriptor =>
                           bind (loadImageFromBuffer w (file_buffer selfie))
                             (fun selfieImg =>
                                bind (extractFaceData w selfieImg)
                                  (fun selfieData =>
                                     match selfieData with
                                     | Rejected msg => ret (bad_request ("Selfie error: " ++ msg)%string)
                                     | Extracted selfieDescriptor =>
                                         bind (await (compareFaces refDescriptor selfieDescriptor))
                                           (fun result => ret (mkResponse 200 (JsonResult result)))
                                     end))
                       end) st1).
  { unfold verify_body. unfold body_referenceImageUrl in Hurl.
    destruct (req_body req) as [body|]; [|discriminate]. cbv beta iota zeta.
    rewrite Hurl, Hfile, Htruthy. cbn [url_of].
    now rewrite (bind_normal _ _ _ _ _ Href). }
  unfold verify, try_catch. rewrite Hbody, (bind_normal _ _ _ _ _ Hext).
  split.
  - intros reason ->. split; [reflexivity|].
    destruct (loadImageFromUrl_calls _ _ _ _ _ Href) as (D1 & D2 & _).
    destruct (extractFaceData_calls w refImg st1) as (E1 & E2 & _).
    rewrite Hext in E1, E2. cbn [snd] in E1, E2. lia.
  - intros refDescriptor -> selfieImg st3 selfieData st4 Hsel Hext2.
    rewrite (bind_normal _ _ _ _ _ Hsel), (bind_normal _ _ _ _ _ Hext2).
    split.
    + intros reason ->. reflexivity.
    + intros selfieDescriptor result -> Hcmp.
      unfold bind, await. rewrite Hcmp. reflexivity.
Qed.

Lemma orchestrator_short_circuit_witness :
  fst (verify (Sample.world 200 200 [200%float]) Sample.request initial)
  = Normal (bad_request
              "Reference image error: Image too low quality. Use better camera.")
  /\ decoder_calls (trace (snd (verify (Sample.world 200 200 [200%float]) Sample.request initial)))
     = 1%nat
  /\ detector_calls (trace (snd (verify (Sample.world 200 200 [200%float]) Sample.request initial)))
     = 0%nat.
Proof.
  destruct (orchestrator_short_circuit (Sample.world 200 200 [200%float]) Sample.request
              initial _ _ _ _ _ _ eq_refl eq_refl eq_refl eq_refl eq_refl) as [A _].
  destruct (A _ eq_refl) as (E & _ & _).
  rewrite E. repeat split; reflexivity.
Defined.

(** ** [POST /verify]: faults and rejections *)

Lemma extractFaceData_reasons w image st msg st' :
  extractFaceData w image st = (Normal (Rejected msg), st') ->
  In msg rejection_messages.
Proof.
  rewrite extractFaceData_steps.
  destruct (loadModels w st) as [[u|e] st1]; [|discriminate].
  destruct (_ || _)%bool.
  - intros H. injection H as <- _. simpl. auto.
  - cbv zeta. destruct (detectAllFaces w image detectorOptions) as [ds|e]; [|discriminate].
    intros H. injection H as H _. apply singleFace_messages in H.
    simpl in *. intuition.
Qed.

Lemma extractFaceData_detector_fault w image st e :
  fst (loadModels w st) = Normal tt ->
  (MIN_IMAGE_SIZE <= width image /\ MIN_IMAGE_SIZE <= height image)%Z ->
  detectAllFaces w image detectorOptions = Throw e ->
  fst (extractFaceData w image st) = Throw e.
Proof.
  intros Hload [Hw Hh] Hdet. rewrite extractFaceData_steps.
  destruct (loadModels w st) as [[u|e'] st1]; simpl in Hload; [|discriminate].
  replace (width image <? MIN_IMAGE_SIZE)%Z with false by (symmetry; apply Z.ltb_ge; assumption).
  replace (height image <? MIN_IMAGE_SIZE)%Z with false by (symmetry; apply Z.ltb_ge; assumption).
  cbv zeta. rewrite Hdet. reflexivity.
Qed.

Lemma extractFaceData_load_fault w image st e :
  fst (loadModels w st) = Throw e -> fst (extractFaceData w image st) = Throw e.
Proof.
  intros Hload. rewrite extractFaceData_steps.
  destruct (loadModels w st) as [[u|e'] st1]; simpl in Hload; [discriminate|].
  injection Hload as ->. reflexivity.
Qed.

Lemma verify_of_body w req st :
  fst (verify w req st) =
  match fst (verify_body w req st) with
  | Normal resp => Normal resp
  | Throw _ => Normal server_error
  end.
Proof.
  unfold verify, try_catch.
  destruct (verify_body w req st) as [[resp|e] st1]; reflexivity.
Qed.

Lemma body_of_url req url :
  body_referenceImageUrl req = Some url ->
  exists body, req_body req = Some body /\ referenceImageUrl body = Some url.
Proof.
  unfold body_referenceImageUrl.
  destruct (req_body req) as [body|]; [eauto|discriminate].
Qed.

(** The body of the handler with both inputs present, stage by stage. *)
Lemma verify_body_steps w req st url selfie :
  body_referenceImageUrl req = Some url -> truthy (Some url) = true ->
  req_file req = Some selfie ->
  verify_body w req st =
  match loadImageFromUrl w url st with
  | (Throw e, st1) => (Throw e, st1)
  | (Normal refImg, st1) =>
      match extractFaceData w refImg st1 with
      | (Throw e, st2) => (Throw e, st2)
      | (Normal (Rejected msg), st2) =>
          (Normal (bad_request ("Reference image error: " ++ msg)%string), st2)
      | (Normal (Extracted refDescriptor), st2) =>
          match loadImageFromBuffer w (file_buffer selfie) st2 with
          | (Throw e, st3) => (Throw e, st3)
          | (Normal selfieImg, st3) =>
              match extractFaceData w selfieImg st3 with
              | (Throw e, st4) => (Throw e, st4)
              | (Normal (Rejected msg), st4) =>
                  (Normal (bad_request ("Selfie error: " ++ msg)%string), st4)
              | (Normal (Extracted selfieDescriptor), st4) =>
                  match compareFaces refDescriptor selfieDescriptor with
                  | Throw e => (Throw e, st4)
                  | Normal result => (Normal (mkResponse 200 (JsonResult result)), st4)
                  end
              end
          end
      end
  end.
Proof.
  intros Hurl Htruthy Hfile.
  destruct (body_of_url req url Hurl) as (body & Hbody & Hfield).
  unfold verify_body. rewrite Hbody. cbv beta iota zeta.
  rewrite Hfield, Hfile, Htruthy. cbn [url_of].
  unfold bind, await.
  destruct (loadImageFromUrl w url st) as [[refImg|e] st1]; [|reflexivity].
  destruct (extractFaceData w refImg st1) as [[[msg|refDescriptor]|e] st2]; try reflexivity.
  destruct (loadImageFromBuffer w (file_buffer selfie) st2) as [[selfieImg|e] st3]; [|reflexivity].
  destruct (extractFaceData w selfieImg st3) as [[[msg|selfieDescriptor]|e] st4]; reflexivity.
Qed.

Lemma verify_body_missing_input w req st body :
  req_body req = Some body ->
  truthy (referenceImageUrl body) = false \/ req_file req = None ->
  verify_body w req st
  = (Normal (bad_request "referenceImageUrl and selfie file required"), st).
Proof.
  unfold verify_body. intros -> [H|H]; cbv beta iota zeta; rewrite H.
  - reflexivity.
  - destruct (truthy _); reflexivity.
Qed.

(** Without a body object the destructuring of line 178 throws. *)
Lemma verify_body_no_body w req st :
  req_body req = None ->
  verify_body w req st = (Throw destructure_undefined, st).
Proof. unfold verify_body. intros ->. reflexivity. Qed.

Lemma truthy_some field : truthy field = true -> exists url, field = Some url.
Proof. destruct field; [eauto|discriminate]. Qed.

(** The three ways through the first lines of the handler. *)
Lemma verify_body_cases w req st :
  verify_body w req st = (Throw destructure_undefined, st)
  \/ verify_body w req st
     = (Normal (bad_request "referenceImageUrl and selfie file required"), st)
  \/ (exists url selfie,
        body_referenceImageUrl req = Some url /\ truthy (Some url) = true
        /\ req_file req = Some selfie).
Proof.
  destruct (req_body req) as [body|] eqn:Hbody.
  2:{ left. apply verify_body_no_body. assumption. }
  right.
  destruct (truthy (referenceImageUrl body)) eqn:Ht.
  2:{ left. apply (verify_body_missing_input w req st body); auto. }
  destruct (req_file req) as [selfie|] eqn:Hf.
  2:{ left. apply (verify_body_missing_input w req st body); auto. }
  right. destruct (truthy_some _ Ht) as [url Hu]. exists url, selfie.
  unfold body_referenceImageUrl. rewrite Hbody, <- Hu. auto.
Qed.

(** Every normal answer of the body is a success, the validation message or a
    labeled rejection carrying one of the four messages. *)
Lemma verify_body_answers w req st resp st' :
  verify_body w req st = (Normal resp, st') ->
  (exists result, resp = mkResponse 200 (JsonResult result))
  \/ resp = bad_request "referenceImageUrl and selfie file required"
  \/ (exists reason, In reason rejection_messages
        /\ (resp = bad_request ("Reference image error: " ++ reason)%string
            \/ resp = bad_request ("Selfie error: " ++ reason)%string)).
Proof.
  destruct (verify_body_cases w req st) as [E|[E|(url & selfie & Hu & Ht & Hf)]].
  1:{ rewrite E. discriminate. }
  1:{ rewrite E. intros H; injection H as <- _. auto. }
  rewrite (verify_body_steps w req st url selfie Hu Ht Hf).
  destruct (loadImageFromUrl w url st) as [[refImg|e] st1]; [|discriminate].
  destruct (extractFaceData w refImg st1) as [[[msg|refDescriptor]|e] st2] eqn:E1;
    [| |discriminate].
  { intros H; injection H as <- _. right. right. exists msg.
    split; [eapply extractFaceData_reasons; eassumption|auto]. }
  destruct (loadImageFromBuffer w (file_buffer selfie) st2) as [[selfieImg|e] st3];
    [|discriminate].
  destruct (extractFaceData w selfieImg st3) as [[[msg|selfieDescriptor]|e] st4] eqn:E2;
    [| |discriminate].
  { intros H; injection H as <- _. right. right. exists msg.
    split; [eapply extractFaceData_reasons; eassumption|auto]. }
  destruct (compareFaces refDescriptor selfieDescriptor) as [result|e]; [|discriminate].
  intros H; injection H as <- _. left. eauto.
Qed.

Lemma loadModels_sets_flag w st u st1 :
  loadModels w st = (Normal u, st1) -> modelsLoaded st1 = true.
Proof.
  unfold loadModels, bind, get_modelsLoaded, net_loadFromDisk, bind, emit, await,
    console_log, emit, set_modelsLoaded, ret.
  destruct (modelsLoaded st) eqn:Hl.
  - intros H. injection H as _ <-. assumption.
  - destruct (loadFromDisk w ssdMobilenetv1 (modelPath w)); [|discriminate].
    destruct (loadFromDisk w faceLandmark68Net (modelPath w)); [|discriminate].
    destruct (loadFromDisk w faceRecognitionNet (modelPath w)); [|discriminate].
    intros H. injection H as _ <-. reflexivity.
Qed.

Lemma extractFaceData_sets_flag w image st r st' :
  extractFaceData w image st = (Normal r, st') -> modelsLoaded st' = true.
Proof.
  rewrite extractFaceData_steps.
  destruct (loadModels w st) as [[u|e] st1] eqn:E; [|discriminate].
  apply loadModels_sets_flag in E.
  destruct (_ || _)%bool.
  - intros H. injection H as _ <-. assumption.
  - cbv zeta. destruct (detectAllFaces w image detectorOptions); [|discriminate].
    intros H. injection H as _ <-. assumption.
Qed.

Lemma loadImageFromBuffer_steps w buffer st :
  loadImageFromBuffer w buffer st
  = (canvas_loadImage w buffer, record (EvLoadImage buffer) st).
Proof. apply loadImage_steps. Qed.

(** A rejection returned by [extractFaceData], from what it is given. *)
Lemma extractFaceData_rejections w image s :
  fst (loadModels w s) = Normal tt ->
  ((width image <? MIN_IMAGE_SIZE)%Z = true \/ (height image <? MIN_IMAGE_SIZE)%Z = true ->
     fst (extractFaceData w image s)
     = Normal (Rejected "Image too low quality. Use better camera."))
  /\ ((MIN_IMAGE_SIZE <= width image /\ MIN_IMAGE_SIZE <= height image)%Z ->
      (detectAllFaces w image detectorOptions = Normal None
       \/ detectAllFaces w image detectorOptions = Normal (Some []) ->
       fst (extractFaceData w image s) = Normal (Rejected "No face detected"))
      /\ (forall faces,
            detectAllFaces w image detectorOptions = Normal (Some faces) ->
            (1 < List.length faces)%nat ->
            fst (extractFaceData w image s) = Normal (Rejected "Multiple faces detected"))
      /\ (forall face,
            detectAllFaces w image detectorOptions = Normal (Some [face]) ->
            (box_width (detection_box face) <? MIN_FACE_WIDTH)%float = true ->
            fst (extractFaceData w image s)
            = Normal (Rejected "Face too small. Move closer to camera."))).
Proof.
  intros Hload. rewrite extractFaceData_steps.
  destruct (loadModels w s) as [[u|e] s1]; cbn [fst] in Hload; [|discriminate].
  split.
  - intros H.
    replace ((width image <? MIN_IMAGE_SIZE) || (height image <? MIN_IMAGE_SIZE))%Z
      with true; [reflexivity|].
    symmetry. apply orb_true_iff. exact H.
  - intros [Hw Hh].
    replace (width image <? MIN_IMAGE_SIZE)%Z with false
      by (symmetry; apply Z.ltb_ge; assumption).
    replace (height image <? MIN_IMAGE_SIZE)%Z with false
      by (symmetry; apply Z.ltb_ge; assumption).
    cbn [orb]. cbv zeta.
    split; [|split].
    + intros [-> | ->]; reflexivity.
    + intros faces -> Hlen.
      destruct faces as [|face [|face' others]]; cbn [List.length] in Hlen; try lia.
      cbn [fst]. unfold singleFace.
      replace (1 <? Z.of_nat (List.length (face :: face' :: others)))%Z with true
        by (symmetry; apply Z.ltb_lt; cbn [List.length]; lia).
      reflexivity.
    + intros face -> Hsmall. cbn [fst]. unfold singleFace.
      replace (1 <? Z.of_nat (List.length [face]))%Z with false by reflexivity.
      rewrite Hsmall. reflexivity.
Qed.

(** The fixed 500 is the answer of the [catch] block and of nothing else. *)
Lemma server_error_only_from_throw w req st :
  fst (verify w req st) = Normal server_error ->
  exists e, fst (verify_body w req st) = Throw e.
Proof.
  rewrite verify_of_body.
  destruct (verify_body w req st) as [[resp|e] st1] eqn:E; cbn [fst]; [|eauto].
  intros H. injection H as ->.
  destruct (verify_body_answers _ _ _ _ _ E)
    as [[result H]|[H|(reason & _ & [H|H])]]; discriminate.
Qed.

(** Claim C8.  The handler always answers, and its answer is the fixed
    500 "Face verification failed", a 200 with a result, or a 400 whose message
    is the validation message or a label followed by one of the four rejection
    messages.  Whatever is thrown inside the handler is answered with the
    fixed 500, which carries nothing of the error, and that 500 is given only
    when something was thrown.  In particular a failed or refused fetch, a
    body that cannot be read, an image (reference or selfie) that cannot be
    decoded, a failed model load, a throwing detector and a request without a
    body object are all answered with that 500, never with a labeled
    rejection.  A rejection returned by [extractFaceData], for the reference
    or for the selfie, is answered with 400 and its own message after the
    label, nothing being logged; and with the models loaded [extractFaceData]
    returns each of the four rejections on its own condition: an image below
    300 pixels in width or height, no detected face, more than one, and a
    single face narrower than 120. *)
Theorem infrastructure_faults_are_opaque w req st :
  (exists resp,
     fst (verify w req st) = Normal resp
     /\ (resp = server_error
         \/ (exists result, resp = mkResponse 200 (JsonResult result))
         \/ resp = bad_request "referenceImageUrl and selfie file required"
         \/ (exists reason,
               In reason rejection_messages
               /\ (resp = bad_request ("Reference image error: " ++ reason)%string
                   \/ resp = bad_request ("Selfie error: " ++ reason)%string))))
  /\ (forall e, fst (verify_body w req st) = Throw e ->
        fst (verify w req st) = Normal server_error)
  /\ (forall url selfie,
        body_referenceImageUrl req = Some url -> truthy (Some url) = true ->
        req_file req = Some selfie ->
        (forall e, fetch w url = Throw e ->
           fst (verify w req st) = Normal server_error)
        /\ (forall res, fetch w url = Normal res -> res_ok res = false ->
              fst (verify w req st) = Normal server_error)
        /\ (forall res e, fetch w url = Normal res -> res_ok res = true ->
              res_buffer res = Throw e ->
              fst (verify w req st) = Normal server_error)
        /\ (forall res buffer e, fetch w url = Normal res -> res_ok res = true ->
              res_buffer res = Normal buffer -> canvas_loadImage w buffer = Throw e ->
              fst (verify w req st) = Normal server_error)
        /\ (forall refImg st1,
              loadImageFromUrl w url st = (Normal refImg, st1) ->
              (forall e, fst (loadModels w st1) = Throw e ->
                 fst (verify w req st) = Normal server_error)
              /\ (forall e, fst (loadModels w st1) = Normal tt ->
                    (MIN_IMAGE_SIZE <= width refImg /\ MIN_IMAGE_SIZE <= height refImg)%Z ->
                    detectAllFaces w refImg detectorOptions = Throw e ->
                    fst (verify w req st) = Normal server_error)
              /\ (forall refDescriptor st2,
                    extractFaceData w refImg st1 = (Normal (Extracted refDescriptor), st2) ->
                    (forall e, canvas_loadImage w (file_buffer selfie) = Throw e ->
                       fst (verify w req st) = Normal server_error)
                    /\ (forall selfieImg e,
                          canvas_loadImage w (file_buffer selfie) = Normal selfieImg ->
                          (MIN_IMAGE_SIZE <= width selfieImg
                           /\ MIN_IMAGE_SIZE <= height selfieImg)%Z ->
                          detectAllFaces w selfieImg detectorOptions = Throw e ->
                          fst (verify w req st) = Normal server_error))))
  /\ (req_body req = None -> fst (verify w req st) = Normal server_error)
  /\ (fst (verify w req st) = Normal server_error ->
      exists e, fst (verify_body w req st) = Throw e)
  /\ (forall url selfie,
        body_referenceImageUrl req = Some url -> truthy (Some url) = true ->
        req_file req = Some selfie ->
        forall refImg st1,
          loadImageFromUrl w url st = (Normal refImg, st1) ->
          (forall reason st2,
             extractFaceData w refImg st1 = (Normal (Rejected reason), st2) ->
             In reason rejection_messages
             /\ verify w req st
                = (Normal (mkResponse 400
                             (JsonMsg ("Reference image error: " ++ reason)%string)), st2))
          /\ (forall refDescriptor st2 selfieImg st3 reason st4,
                extractFaceData w refImg st1 = (Normal (Extracted refDescriptor), st2) ->
                loadImageFromBuffer w (file_buffer selfie) st2 = (Normal selfieImg, st3) ->
                extractFaceData w selfieImg st3 = (Normal (Rejected reason), st4) ->
                In reason rejection_messages
                /\ verify w req st
                   = (Normal (mkResponse 400
                                (JsonMsg ("Selfie error: " ++ reason)%string)), st4)))
  /\ (forall image s,
        fst (loadModels w s) = Normal tt ->
        ((width image <? MIN_IMAGE_SIZE)%Z = true
         \/ (height image <? MIN_IMAGE_SIZE)%Z = true ->
           fst (extractFaceData w image s)
           = Normal (Rejected "Image too low quality. Use better camera."))
        /\ ((MIN_IMAGE_SIZE <= width image /\ MIN_IMAGE_SIZE <= height image)%Z ->
            (detectAllFaces w image detectorOptions = Normal None
             \/ detectAllFaces w image detectorOptions = Normal (Some []) ->
             fst (extractFaceData w image s) = Normal (Rejected "No face detected"))
            /\ (forall faces,
                  detectAllFaces w image detectorOptions = Normal (Some faces) ->
                  (1 < List.length faces)%nat ->
                  fst (extractFaceData w image s)
                  = Normal (Rejected "Multiple faces detected"))
            /\ (forall face,
                  detectAllFaces w image detectorOptions = Normal (Some [face]) ->
                  (box_width (detection_box face) <? MIN_FACE_WIDTH)%float = true ->
                  fst (extractFaceData w image s)
                  = Normal (Rejected "Face too small. Move closer to camera.")))).
Proof.
  split; [|split; [|split; [|split; [|split; [|split]]]]].
  - rewrite verify_of_body.
    destruct (verify_body w req st) as [[resp|e] st1] eqn:E; cbn [fst].
    + exists resp. split; [reflexivity|]. right.
      exact (verify_body_answers _ _ _ _ _ E).
    + exists server_error. auto.
  - intros e H. rewrite verify_of_body, H. reflexivity.
  - intros url selfie Hurl Htruthy Hfile.
    rewrite verify_of_body, (verify_body_steps w req st url selfie Hurl Htruthy Hfile).
    rewrite loadImageFromUrl_steps. cbv zeta.
    split; [|split; [|split; [|split]]].
    + intros e ->. reflexivity.
    + intros res -> ->. reflexivity.
    + intros res e -> -> ->. reflexivity.
    + intros res buffer e -> -> -> ->. reflexivity.
    + intros refImg st1 Href. rewrite Href.
      split; [|split].
      * intros e H. apply (extractFaceData_load_fault w refImg) in H.
        destruct (extractFaceData w refImg st1) as [[r|e'] st2]; cbn [fst] in H;
          [discriminate|reflexivity].
      * intros e Hl Hg Hd.
        pose proof (extractFaceData_detector_fault w refImg st1 e Hl Hg Hd) as H.
        destruct (extractFaceData w refImg st1) as [[r|e'] st2]; cbn [fst] in H;
          [discriminate|reflexivity].
      * intros refDescriptor st2 Hext. rewrite Hext, loadImageFromBuffer_steps.
        split.
        -- intros e ->. reflexivity.
        -- intros selfieImg e -> Hg Hd.
           assert (Hl : fst (loadModels w (record (EvLoadImage (file_buffer selfie)) st2))
                        = Normal tt).
           { rewrite loadModels_loaded; [reflexivity|].
             apply extractFaceData_sets_flag in Hext. exact Hext. }
           pose proof (extractFaceData_detector_fault w selfieImg _ e Hl Hg Hd) as H.
           destruct (extractFaceData w selfieImg _) as [[r|e'] st4]; cbn [fst] in H;
             [discriminate|reflexivity].
  - intros Hbody. rewrite verify_of_body, (verify_body_no_body w req st Hbody).
    reflexivity.
  - apply server_error_only_from_throw.
  - intros url selfie Hurl Htruthy Hfile refImg st1 Href.
    unfold verify, try_catch.
    rewrite (verify_body_steps w req st url selfie Hurl Htruthy Hfile), Href.
    split.
    + intros reason st2 Hext. rewrite Hext.
      split; [exact (extractFaceData_reasons _ _ _ _ _ Hext)|reflexivity].
    + intros refDescriptor st2 selfieImg st3 reason st4 Hext Hsel Hext'.
      rewrite Hext, Hsel, Hext'.
      split; [exact (extractFaceData_reasons _ _ _ _ _ Hext')|reflexivity].
  - intros image s. apply extractFaceData_rejections.
Qed.

Lemma infrastructure_faults_are_opaque_witness :
  verify (Sample.world 200 200 [200%float]) Sample.request initial
  = (Normal (mkResponse 400
               (JsonMsg "Reference image error: Image too low quality. Use better camera.")),
     snd (extractFaceData (Sample.world 200 200 [200%float]) (mkImage 200 200 [x1e]%byte)
            (snd (loadImageFromUrl (Sample.world 200 200 [200%float])
                    "http://example.org/id.jpg" initial)))).
Proof.
  destruct (infrastructure_faults_are_opaque
              (Sample.world 200 200 [200%float]) Sample.request initial)
    as (_ & _ & _ & _ & _ & Hrej & _).
  destruct (Hrej "http://example.org/id.jpg" (mkFile [x00]%byte)
              eq_refl eq_refl eq_refl
              (mkImage 200 200 [x1e]%byte)
              (snd (loadImageFromUrl (Sample.world 200 200 [200%float])
                      "http://example.org/id.jpg" initial))
              eq_refl) as [Href _].
  destruct (Href "Image too low quality. Use better camera."
              (snd (extractFaceData (Sample.world 200 200 [200%float])
                      (mkImage 200 200 [x1e]%byte)
                      (snd (loadImageFromUrl (Sample.world 200 200 [200%float])
                              "http://example.org/id.jpg" initial))))
              eq_refl) as [_ H].
  exact H.
Defined.

(** ** [compareFaces] *)

Lemma compareFaces_of_distance d1 d2 dist :
  faceapi.euclideanDistance d1 d2 = Normal dist ->
  compareFaces d1 d2 =
  Normal {| verified := (dist <? FACE_MATCH_THRESHOLD)%float;
            distance := JS.Number_of (JS.toFixed dist 4);
            matchPercentage :=
              JS.Number_of
                (JS.toFixed (JS.Math_max [0%float; JS.Math_min [100%float; ((1 - dist) * 100)%float]]) 2);
            threshold := FACE_MATCH_THRESHOLD |}.
Proof. intros H. unfold compareFaces. now rewrite H. Qed.

(** Claim C1.  For embeddings of equal length [compareFaces] returns, and
    [verified] is true exactly when the Euclidean distance is strictly below
    [FACE_MATCH_THRESHOLD] (0.48, the binary64 value [thr_m * 2^-54]); a
    distance equal to the threshold is not verified.  The decision reads the
    distance as computed, while the reported [distance] is that value rounded
    to four decimals. *)
Theorem verified_iff_below_threshold d1 d2 :
  List.length d1 = List.length d2 ->
  exists dist r,
    faceapi.euclideanDistance d1 d2 = Normal dist
    /\ compareFaces d1 d2 = Normal r
    /\ (verified r = true <-> (dist <? FACE_MATCH_THRESHOLD)%float = true)
    /\ (dist = FACE_MATCH_THRESHOLD -> verified r = false)
    /\ (forall m e, Prim2SF dist = S754_finite false m e ->
          (verified r = true <-> mag m e < mag thr_m (-54)))
    /\ distance r = JS.Number_of (JS.toFixed dist 4)
    /\ threshold r = FACE_MATCH_THRESHOLD.
Proof.
  intros Hlen. destruct (euclideanDistance_defined d1 d2 Hlen) as [dist Hd].
  exists dist. eexists. split; [exact Hd|].
  split; [apply compareFaces_of_distance; exact Hd|]. cbn [verified distance threshold].
  split; [reflexivity|]. split; [intros ->; reflexivity|].
  split; [|split; reflexivity].
  intros m e Hm. rewrite (ltb_finite dist _ m e thr_m (-54) Hm Prim2SF_threshold).
  apply Z.ltb_lt.
Qed.

Lemma verified_iff_below_threshold_witness :
  exists dist r,
    faceapi.euclideanDistance [0x1.eb7a9ab69d734p-2%float] [0%float] = Normal dist
    /\ compareFaces [0x1.eb7a9ab69d734p-2%float] [0%float] = Normal r
    /\ (verified r = true <-> (dist <? FACE_MATCH_THRESHOLD)%float = true)
    /\ (dist = FACE_MATCH_THRESHOLD -> verified r = false)
    /\ (forall m e, Prim2SF dist = S754_finite false m e ->
          (verified r = true <-> mag m e < mag thr_m (-54)))
    /\ distance r = JS.Number_of (JS.toFixed dist 4)
    /\ threshold r = FACE_MATCH_THRESHOLD.
Proof.
  exact (verified_iff_below_threshold [0x1.eb7a9ab69d734p-2%float] [0%float] eq_refl).
Defined.

(** The reported distance is rounded, the decision is not: an embedding pair
    at distance 0.47995988... is reported at 0.48, the threshold, and is
    verified all the same. *)
Example rounding_does_not_decide :
  compareFaces [0x1.eb7a9ab69d734p-2%float] [0%float]
  = Normal {| verified := true;
              distance := FACE_MATCH_THRESHOLD;
              matchPercentage := 52%float;
              threshold := FACE_MATCH_THRESHOLD |}.
Proof. vm_compute. reflexivity. Qed.

(** Claim C4.  For embeddings of equal length the match percentage is
    [(1 - distance) * 100] clamped by [Math.max(0, Math.min(100, .))] and
    rounded to two decimals.  A distance of zero gives 100 (and a verified
    result), a distance of at least 1 gives 0, the percentage is never
    negative, and it lies between 0 and 100 whenever the distance is not NaN,
    which is the case for all embeddings of finite numbers. *)
Theorem match_percentage_clamped d1 d2 :
  List.length d1 = List.length d2 ->
  exists dist r,
    faceapi.euclideanDistance d1 d2 = Normal dist
    /\ compareFaces d1 d2 = Normal r
    /\ matchPercentage r
       = JS.Number_of
           (JS.toFixed (JS.Math_max [0%float; JS.Math_min [100%float; ((1 - dist) * 100)%float]]) 2)
    /\ ((dist =? 0)%float = true ->
          matchPercentage r = 100%float /\ verified r = true)
    /\ ((1 <=? dist)%float = true -> matchPercentage r = 0%float)
    /\ (matchPercentage r <? 0)%float = false
    /\ (is_nan dist = false ->
          (0 <=? matchPercentage r)%float = true
          /\ (matchPercentage r <=? 100)%float = true)
    /\ (Forall (fun x => Binary64.finite x = true) d1 ->
        Forall (fun x => Binary64.finite x = true) d2 ->
          (0 <=? matchPercentage r)%float = true
          /\ (matchPercentage r <=? 100)%float = true).
Proof.
  intros Hlen. destruct (euclideanDistance_defined d1 d2 Hlen) as [dist Hd].
  exists dist. eexists. split; [exact Hd|].
  split; [apply compareFaces_of_distance; exact Hd|]. cbn [verified matchPercentage].
  split; [reflexivity|].
  pose proof (percentage_range_any ((1 - dist) * 100)%float) as [Hneg Hrange].
  cbv zeta in Hneg, Hrange.
  split; [|split; [|split; [|split]]].
  - intros H0. destruct (raw_percentage_zero dist H0) as [E V].
    rewrite E, V. split; [|reflexivity]. vm_compute. reflexivity.
  - intros H1. rewrite (raw_percentage_far dist H1). apply round2_zero.
  - exact Hneg.
  - intros Hn. apply Hrange, raw_percentage_not_nan, Hn.
  - intros F1 F2. destruct (euclideanDistance_nonneg d1 d2 dist F1 F2 Hd) as [Hn _].
    apply Hrange, raw_percentage_not_nan, Hn.
Qed.

Lemma match_percentage_clamped_witness :
  exists dist r,
    faceapi.euclideanDistance [1%float; 2%float] [1%float; 2%float] = Normal dist
    /\ compareFaces [1%float; 2%float] [1%float; 2%float] = Normal r
    /\ matchPercentage r = 100%float /\ verified r = true.
Proof.
  destruct (match_percentage_clamped [1%float; 2%float] [1%float; 2%float] eq_refl)
    as (dist & r & Hd & Hr & _ & H0 & _).
  exists dist, r. split; [exact Hd|]. split; [exact Hr|].
  apply H0. vm_compute in Hd. injection Hd as <-. reflexivity.
Defined.

(** Claim C6.  A distance of exactly 0.3 is answered with verified = true,
    match percentage 70 and threshold 0.48; a distance of exactly 0.6 with
    verified = false and match percentage 40. *)
Theorem end_to_end_scores d1 d2 :
  (faceapi.euclideanDistance d1 d2 = Normal 0x1.3333333333333p-2%float ->
     compareFaces d1 d2
     = Normal {| verified := true;
                 distance := 0x1.3333333333333p-2%float;
                 matchPercentage := 70%float;
                 threshold := 0x1.eb851eb851eb8p-2%float |})
  /\ (faceapi.euclideanDistance d1 d2 = Normal 0x1.3333333333333p-1%float ->
        compareFaces d1 d2
        = Normal {| verified := false;
                    distance := 0x1.3333333333333p-1%float;
                    matchPercentage := 40%float;
                    threshold := 0x1.eb851eb851eb8p-2%float |}).
Proof.
  split; intros H; rewrite (compareFaces_of_distance _ _ _ H); vm_compute; reflexivity.
Qed.

Lemma end_to_end_scores_witness :
  compareFaces [0x1.3333333333333p-2%float; 5%float] [0%float; 5%float]
  = Normal {| verified := true;
              distance := 0x1.3333333333333p-2%float;
              matchPercentage := 70%float;
              threshold := 0x1.eb851eb851eb8p-2%float |}
  /\ compareFaces [0x1.3333333333333p-1%float] [0%float]
     = Normal {| verified := false;
                 distance := 0x1.3333333333333p-1%float;
                 matchPercentage := 40%float;
                 threshold := 0x1.eb851eb851eb8p-2%float |}.
Proof.
  split.
  - apply (end_to_end_scores [0x1.3333333333333p-2%float; 5%float] [0%float; 5%float]).
    vm_compute. reflexivity.
  - apply (end_to_end_scores [0x1.3333333333333p-1%float] [0%float]).
    vm_compute. reflexivity.
Defined.

(** Claim C7.  [compareFaces] is symmetric: both argument orders give the
    same outcome, hence the same reported distance. *)
Theorem scoring_is_symmetric a b :
  compareFaces a b = compareFaces b a
  /\ (forall ra rb, compareFaces a b = Normal ra -> compareFaces b a = Normal rb ->
        distance ra = distance rb).
Proof.
  assert (E : compareFaces a b = compareFaces b a)
    by (unfold compareFaces; now rewrite (euclideanDistance_comm a b)).
  split; [exact E|].
  intros ra rb Ha Hb. rewrite E, Hb in Ha. now injection Ha as <-.
Qed.

(** Claim C10.  When the distance is at least zero and the result is
    verified, the match percentage is at least 52 and at most 100. *)
Theorem verified_implies_high_percentage d1 d2 dist r :
  faceapi.euclideanDistance d1 d2 = Normal dist ->
  compareFaces d1 d2 = Normal r ->
  (0 <=? dist)%float = true ->
  verified r = true ->
  (52 <=? matchPercentage r)%float = true /\ (matchPercentage r <=? 100)%float = true.
Proof.
  intros Hd Hr Hge Hv.
  rewrite (compareFaces_of_distance _ _ _ Hd) in Hr. injection Hr as <-.
  cbn [verified matchPercentage] in *.
  destruct (raw_percentage_verified dist Hge Hv) as (m & e & Hraw & Hlo).
  destruct (percentage_of_positive _ m e Hraw) as (_ & Hle & _ & H52).
  cbv zeta in Hle, H52. split; [apply H52; exact Hlo|exact Hle].
Qed.

Lemma verified_implies_high_percentage_witness :
  (52 <=? 70)%float = true /\ (70 <=? 100)%float = true.
Proof.
  exact (verified_implies_high_percentage
           [0x1.3333333333333p-2%float] [0%float] 0x1.3333333333333p-2%float
           {| verified := true;
              distance := 0x1.3333333333333p-2%float;
              matchPercentage := 70%float;
              threshold := 0x1.eb851eb851eb8p-2%float |}
           eq_refl eq_refl eq_refl eq_refl).
Defined.

(** ** Concurrent calls of [loadModels] *)

Import LoadRace.

Lemma loads_of_app n a b : loads_of n (a ++ b) = (loads_of n a + loads_of n b)%nat.
Proof. unfold loads_of. now rewrite filter_app, length_app. Qed.

Lemma resume_at_entry w st :
  modelsLoaded st = false ->
  resume w AtEntry st
  = (Normal (Awaiting ssdMobilenetv1),
     record (EvLoadFromDisk ssdMobilenetv1 (modelPath w))
       (record (EvLog "Loading face models...") st)).
Proof.
  intros H. unfold resume, bind, get_modelsLoaded. rewrite H. reflexivity.
Qed.

Lemma resume_awaiting w n st :
  loadFromDisk w n (modelPath w) = Normal tt ->
  resume w (Awaiting n) st = after_load w n st.
Proof. intros H. unfold resume. now rewrite H. Qed.

Lemma resume_loaded w st :
  modelsLoaded st = true -> resume w AtEntry st = (Normal Returned, st).
Proof. intros H. unfold resume, bind, get_modelsLoaded. rewrite H. reflexivity. Qed.

Lemma run_cons w i schedule s : run w (i :: schedule) s = run w schedule (turn w i s).
Proof. reflexivity. Qed.

Lemma turn_resume w i s p p' st' :
  nth_error (sys_calls s) i = Some p ->
  resume w p (sys_state s) = (Normal p', st') ->
  turn w i s = mkSystem st' (set_nth i p' (sys_calls s)).
Proof. intros H1 H2. unfold turn. now rewrite H1, H2. Qed.

Ltac race_step Hok :=
  rewrite run_cons;
  erewrite turn_resume;
  [ cbn [sys_calls sys_state set_nth]
  | reflexivity
  | cbn [sys_calls sys_state];
    first [ apply resume_at_entry; reflexivity || assumption
          | apply resume_loaded; reflexivity || assumption
          | rewrite resume_awaiting by apply Hok; reflexivity
          | reflexivity ] ].

(** One call run alone, stretch after stretch, is [loadModels]. *)
Lemma run_alone w st :
  (forall n, loadFromDisk w n (modelPath w) = Normal tt) ->
  sys_state (run w [0; 0; 0; 0]%nat (mkSystem st [AtEntry])) = snd (loadModels w st).
Proof.
  intros Hok.
  destruct (modelsLoaded st) eqn:Hl.
  - rewrite (loadModels_loaded w st Hl).
    do 4 race_step Hok. reflexivity.
  - do 4 race_step Hok.
    unfold loadModels, bind, get_modelsLoaded, net_loadFromDisk, bind, emit, await,
      console_log, emit, set_modelsLoaded, ret.
    rewrite Hl, !Hok. reflexivity.
Qed.

(** Claim C9, evaluated on the code.  Two calls of [loadModels] arrive before
    the models are loaded and every load succeeds.  When the second call runs
    while the first is awaiting its first load, it finds [modelsLoaded] still
    false and starts a load of its own: both calls are in flight at once, the
    detector network having been loaded twice.  Run to completion, every
    network has been loaded twice. *)
Theorem concurrent_first_use_loads_twice w st :
  modelsLoaded st = false ->
  (forall n, loadFromDisk w n (modelPath w) = Normal tt) ->
  let racing := run w [0; 1]%nat (mkSystem st [AtEntry; AtEntry]) in
  let done := run w [0; 0; 0; 1; 1; 1]%nat racing in
  sys_calls racing = [Awaiting ssdMobilenetv1; Awaiting ssdMobilenetv1]
  /\ loads_of ssdMobilenetv1 (trace (sys_state racing))
     = (loads_of ssdMobilenetv1 (trace st) + 2)%nat
  /\ sys_calls done = [Returned; Returned]
  /\ modelsLoaded (sys_state done) = true
  /\ forall n, loads_of n (trace (sys_state done)) = (loads_of n (trace st) + 2)%nat.
Proof.
  intros Hl Hok. cbv zeta.
  do 2 race_step Hok.
  split; [reflexivity|]. split.
  { cbn [run fold_left sys_state]. unfold record. cbn [trace modelsLoaded].
    rewrite <- !app_assoc, loads_of_app. reflexivity. }
  do 6 race_step Hok.
  split; [reflexivity|]. split; [reflexivity|].
  intros n. cbn [run fold_left sys_state]. unfold record. cbn [trace modelsLoaded].
  rewrite <- !app_assoc, loads_of_app. destruct n; reflexivity.
Qed.

Lemma concurrent_first_use_loads_twice_witness :
  let w := Sample.world 640 480 [200%float] in
  let racing := run w [0; 1]%nat (mkSystem initial [AtEntry; AtEntry]) in
  let done := run w [0; 0; 0; 1; 1; 1]%nat racing in
  sys_calls racing = [Awaiting ssdMobilenetv1; Awaiting ssdMobilenetv1]
  /\ loads_of ssdMobilenetv1 (trace (sys_state racing)) = 2%nat
  /\ sys_calls done = [Returned; Returned]
  /\ modelsLoaded (sys_state done) = true
  /\ forall n, loads_of n (trace (sys_state done)) = 2%nat.
Proof.
  exact (concurrent_first_use_loads_twice (Sample.world 640 480 [200%float]) initial
           eq_refl (fun n => eq_refl)).
Defined.

(** * Further properties of the code *)

(** ** [loadModels] (lines 58-73) *)

(** X1.  A call of [loadModels] that returns leaves the models marked as
    loaded, and a call made after it returns at once: it loads nothing, logs
    nothing and leaves the state as it is. *)
Theorem loadModels_idempotent w st :
  fst (loadModels w st) = Normal tt ->
  modelsLoaded (snd (loadModels w st)) = true
  /\ loadModels w (snd (loadModels w st)) = (Normal tt, snd (loadModels w st)).
Proof.
  intros H. destruct (loadModels w st) as [[u|e] st1] eqn:E; [|discriminate].
  cbn [snd]. pose proof (loadModels_sets_flag w st u st1 E) as Hl.
  split; [exact Hl|]. apply loadModels_loaded, Hl.
Qed.

Lemma loadModels_idempotent_witness :
  modelsLoaded (snd (loadModels (Sample.world 640 480 []) initial)) = true
  /\ loadModels (Sample.world 640 480 []) (snd (loadModels (Sample.world 640 480 []) initial))
     = (Normal tt, snd (loadModels (Sample.world 640 480 []) initial)).
Proof. exact (loadModels_idempotent (Sample.world 640 480 []) initial eq_refl). Defined.

(** X2.  The flag [modelsLoaded] is set only by a complete load: after a call
    of [loadModels] it is true exactly when the call returned.  A load that
    throws leaves it false, so that the next call tries again. *)
Theorem loadModels_flag_iff_returned w st :
  modelsLoaded (snd (loadModels w st)) = true <-> fst (loadModels w st) = Normal tt.
Proof.
  split.
  - unfold loadModels, bind, get_modelsLoaded, net_loadFromDisk, bind, emit, await,
      console_log, emit, set_modelsLoaded, ret.
    destruct (modelsLoaded st) eqn:Hl; [reflexivity|].
    destruct (loadFromDisk w ssdMobilenetv1 (modelPath w)) as [[]|e];
      [|cbn [snd fst record modelsLoaded]; congruence].
    destruct (loadFromDisk w faceLandmark68Net (modelPath w)) as [[]|e];
      [|cbn [snd fst record modelsLoaded]; congruence].
    destruct (loadFromDisk w faceRecognitionNet (modelPath w)) as [[]|e];
      [reflexivity|cbn [snd fst record modelsLoaded]; congruence].
  - intros H. destruct (loadModels w st) as [[u|e] st1] eqn:E; [|discriminate].
    exact (loadModels_sets_flag w st u st1 E).
Qed.

(** X3.  The first load takes the three networks from [modelPath] in the
    order detector, landmarks, recognition, each once, between the two log
    lines; a network that fails to load stops the sequence, the networks
    after it not being touched. *)
Theorem loadModels_load_order w st :
  modelsLoaded st = false ->
  let path := modelPath w in
  let started := [EvLog "Loading face models..."; EvLoadFromDisk ssdMobilenetv1 path] in
  (forall e, loadFromDisk w ssdMobilenetv1 path = Throw e ->
     loadModels w st = (Throw e, mkState false (trace st ++ started)))
  /\ (forall e, loadFromDisk w ssdMobilenetv1 path = Normal tt ->
        loadFromDisk w faceLandmark68Net path = Throw e ->
        loadModels w st
        = (Throw e, mkState false (trace st ++ started ++ [EvLoadFromDisk faceLandmark68Net path])))
  /\ (forall e, loadFromDisk w ssdMobilenetv1 path = Normal tt ->
        loadFromDisk w faceLandmark68Net path = Normal tt ->
        loadFromDisk w faceRecognitionNet path = Throw e ->
        loadModels w st
        = (Throw e, mkState false (trace st ++ started
                                     ++ [EvLoadFromDisk faceLandmark68Net path;
                                         EvLoadFromDisk faceRecognitionNet path])))
  /\ (loadFromDisk w ssdMobilenetv1 path = Normal tt ->
      loadFromDisk w faceLandmark68Net path = Normal tt ->
      loadFromDisk w faceRecognitionNet path = Normal tt ->
      loadModels w st
      = (Normal tt, mkState true (trace st ++ started
                                    ++ [EvLoadFromDisk faceLandmark68Net path;
                                        EvLoadFromDisk faceRecognitionNet path;
                                        EvLog "Face models loaded"]))).
Proof.
  intros Hl. cbv zeta.
  unfold loadModels, bind, get_modelsLoaded, net_loadFromDisk, bind, emit, await,
    console_log, emit, set_modelsLoaded, ret, record.
  rewrite Hl. cbn [trace modelsLoaded].
  repeat split.
  - intros e ->. rewrite ?Hl, <- ?app_assoc. reflexivity.
  - intros e -> ->. rewrite ?Hl, <- ?app_assoc. reflexivity.
  - intros e -> -> ->. rewrite ?Hl, <- ?app_assoc. reflexivity.
  - intros -> -> ->. rewrite <- ?app_assoc. reflexivity.
Qed.

Lemma loadModels_load_order_witness :
  loadModels Sample.world_without_models initial
  = (Throw (JSError "ENOENT: no such file or directory"),
     mkState false [EvLog "Loading face models...";
                    EvLoadFromDisk ssdMobilenetv1 "/srv/models"]).
Proof.
  destruct (loadModels_load_order Sample.world_without_models initial eq_refl) as [A _].
  exact (A _ eq_refl).
Defined.

(** ** [loadImageFromUrl] (lines 80-85) *)

(** X4.  When the response is not ok, [loadImageFromUrl] throws
    "Failed to fetch reference image" right after the fetch: the body is not
    read and nothing is handed to the decoder. *)
Theorem loadImageFromUrl_refused w url st res :
  fetch w url = Normal res -> res_ok res = false ->
  loadImageFromUrl w url st
  = (Throw (JSError "Failed to fetch reference image"), record (EvFetch url) st)
  /\ decoder_calls (trace (snd (loadImageFromUrl w url st))) = decoder_calls (trace st).
Proof.
  intros Hf Hok. rewrite loadImageFromUrl_steps. cbv zeta. rewrite Hf, Hok.
  split; [reflexivity|]. cbn [snd]. rewrite record_trace, decoder_calls_app.
  change (decoder_calls [EvFetch url]) with 0%nat. lia.
Qed.

Lemma loadImageFromUrl_refused_witness :
  loadImageFromUrl Sample.world_fetch_404 "http://example.org/id.jpg" initial
  = (Throw (JSError "Failed to fetch reference image"),
     record (EvFetch "http://example.org/id.jpg") initial)
  /\ decoder_calls
       (trace (snd (loadImageFromUrl Sample.world_fetch_404 "http://example.org/id.jpg" initial)))
     = decoder_calls (trace initial).
Proof.
  exact (loadImageFromUrl_refused Sample.world_fetch_404 "http://example.org/id.jpg" initial
           _ eq_refl eq_refl).
Defined.

(** X5.  An image returned by [loadImageFromUrl] is the decoding of the bytes
    of an ok response to the fetch of that URL. *)
Theorem loadImageFromUrl_returns_fetched_image w url st img st' :
  loadImageFromUrl w url st = (Normal img, st') ->
  exists res buffer,
    fetch w url = Normal res /\ res_ok res = true
    /\ res_buffer res = Normal buffer
    /\ canvas_loadImage w buffer = Normal img
    /\ trace st' = trace st ++ [EvFetch url; EvBuffer url; EvLoadImage buffer].
Proof.
  rewrite loadImageFromUrl_steps. cbv zeta.
  destruct (fetch w url) as [res|e]; [|discriminate].
  destruct (res_ok res) eqn:Hok; [|discriminate].
  destruct (res_buffer res) as [buffer|e] eqn:Hb; [|discriminate].
  intros H. injection H as Hi <-.
  exists res, buffer. repeat split; try assumption.
  rewrite !record_trace, <- !app_assoc. reflexivity.
Qed.

Lemma loadImageFromUrl_returns_fetched_image_witness :
  exists res buffer,
    fetch (Sample.world 640 480 []) "http://example.org/id.jpg" = Normal res
    /\ res_ok res = true
    /\ res_buffer res = Normal buffer
    /\ canvas_loadImage (Sample.world 640 480 []) buffer = Normal (mkImage 640 480 [x1e]%byte)
    /\ trace (record (EvLoadImage [x1e]%byte)
                (record (EvBuffer "http://example.org/id.jpg")
                   (record (EvFetch "http://example.org/id.jpg") initial)))
       = trace initial ++ [EvFetch "http://example.org/id.jpg";
                           EvBuffer "http://example.org/id.jpg"; EvLoadImage buffer].
Proof.
  exact (loadImageFromUrl_returns_fetched_image (Sample.world 640 480 [])
           "http://example.org/id.jpg" initial _ _ eq_refl).
Defined.

(** ** [extractFaceData] (lines 95-142) *)

(** X6.  A detector that answers with no list at all (null or undefined) is
    treated like one that found nothing: the image is rejected with
    "No face detected". *)
Theorem extractFaceData_no_list w image st :
  fst (loadModels w st) = Normal tt ->
  (MIN_IMAGE_SIZE <= width image /\ MIN_IMAGE_SIZE <= height image)%Z ->
  detectAllFaces w image detectorOptions = Normal None ->
  fst (extractFaceData w image st) = Normal (Server.Rejected "No face detected").
Proof.
  intros Hload [Hw Hh] Hdet. rewrite extractFaceData_steps.
  destruct (loadModels w st) as [[u|e] st1]; simpl in Hload; [|discriminate].
  replace (width image <? MIN_IMAGE_SIZE)%Z with false by (symmetry; apply Z.ltb_ge; assumption).
  replace (height image <? MIN_IMAGE_SIZE)%Z with false by (symmetry; apply Z.ltb_ge; assumption).
  cbv zeta. rewrite Hdet. reflexivity.
Qed.

Lemma extractFaceData_no_list_witness :
  fst (extractFaceData Sample.world_null_detector (mkImage 640 480 []) initial)
  = Normal (Server.Rejected "No face detected").
Proof.
  apply (extractFaceData_no_list Sample.world_null_detector (mkImage 640 480 []) initial).
  - reflexivity.
  - split; discriminate.
  - reflexivity.
Defined.

(** X7.  A descriptor is returned only when every check has passed: the
    models are loaded, the image is at least 300 by 300, the detector found
    exactly one face, that face's box is not narrower than 120, and the
    descriptor is that face's. *)
Theorem extractFaceData_success_inversion w image st d st' :
  extractFaceData w image st = (Normal (Extracted d), st') ->
  fst (loadModels w st) = Normal tt
  /\ modelsLoaded st' = true
  /\ (MIN_IMAGE_SIZE <= width image /\ MIN_IMAGE_SIZE <= height image)%Z
  /\ exists face,
       detectAllFaces w image detectorOptions = Normal (Some [face])
       /\ (box_width (detection_box face) <? MIN_FACE_WIDTH)%float = false
       /\ d = descriptor face.
Proof.
  intros H. pose proof (extractFaceData_sets_flag _ _ _ _ _ H) as Hflag.
  rewrite extractFaceData_steps in H.
  destruct (loadModels w st) as [[[]|e] st1]; [|discriminate].
  split; [reflexivity|]. split; [exact Hflag|].
  destruct ((width image <? MIN_IMAGE_SIZE) || (height image <? MIN_IMAGE_SIZE))%Z eqn:Hlow;
    [discriminate|].
  apply orb_false_iff in Hlow. destruct Hlow as [H1 H2]. apply Z.ltb_ge in H1, H2.
  split; [split; assumption|].
  cbv zeta in H.
  destruct (detectAllFaces w image detectorOptions) as [[[|face [|f2 rest]]|]|e];
    try discriminate.
  - exists face. split; [reflexivity|].
    unfold singleFace in H. cbn [List.length Z.of_nat Z.ltb Z.compare Pos.compare Pos.compare_cont] in H.
    destruct (box_width (detection_box face) <? MIN_FACE_WIDTH)%float; [discriminate|].
    injection H as H _. auto.
  - exfalso. unfold singleFace in H.
    replace (1 <? Z.of_nat (List.length (face :: f2 :: rest)))%Z with true in H;
      [discriminate|].
    symmetry. apply Z.ltb_lt. simpl List.length. lia.
Qed.

Lemma extractFaceData_success_inversion_witness :
  fst (loadModels (Sample.world 640 480 [200%float]) initial) = Normal tt
  /\ modelsLoaded (snd (extractFaceData (Sample.world 640 480 [200%float])
                          (mkImage 640 480 []) initial)) = true
  /\ (MIN_IMAGE_SIZE <= 640 /\ MIN_IMAGE_SIZE <= 480)%Z
  /\ exists face,
       detectAllFaces (Sample.world 640 480 [200%float]) (mkImage 640 480 []) detectorOptions
       = Normal (Some [face])
       /\ (box_width (detection_box face) <? MIN_FACE_WIDTH)%float = false
       /\ [] = descriptor face.
Proof.
  exact (extractFaceData_success_inversion (Sample.world 640 480 [200%float])
           (mkImage 640 480 []) initial [] _ eq_refl).
Defined.

(** X8.  For an image that passes the size check, with the models loaded,
    the detector is called exactly once, on that image, with
    minConfidence 0.5, maxResults 5 and inputSize 512; the call is the last
    thing [extractFaceData] does that can be observed. *)
Theorem extractFaceData_detector_call w image st :
  fst (loadModels w st) = Normal tt ->
  (MIN_IMAGE_SIZE <= width image /\ MIN_IMAGE_SIZE <= height image)%Z ->
  trace (snd (extractFaceData w image st))
  = trace (snd (loadModels w st))
      ++ [EvDetect image {| minConfidence := 0.5%float; maxResults := 5; inputSize := 512 |}]
  /\ detector_calls (trace (snd (extractFaceData w image st)))
     = S (detector_calls (trace st)).
Proof.
  intros Hload [Hw Hh]. rewrite extractFaceData_steps.
  destruct (loadModels_events w st) as (evs & Etr & Hdet & _).
  destruct (loadModels w st) as [[u|e] st1]; simpl in Hload; [|discriminate].
  replace (width image <? MIN_IMAGE_SIZE)%Z with false by (symmetry; apply Z.ltb_ge; assumption).
  replace (height image <? MIN_IMAGE_SIZE)%Z with false by (symmetry; apply Z.ltb_ge; assumption).
  cbn [orb snd] in *. cbv zeta.
  assert (E' : snd match detectAllFaces w image detectorOptions with
                   | Normal ds => (Normal (singleFace ds),
                                   record (EvDetect image detectorOptions) st1)
                   | Throw e => (Throw e, record (EvDetect image detectorOptions) st1)
                   end = record (EvDetect image detectorOptions) st1)
    by (destruct (detectAllFaces w image detectorOptions); reflexivity).
  rewrite E', record_trace. split; [reflexivity|].
  rewrite Etr, !detector_calls_app, Hdet.
  change (detector_calls [EvDetect image detectorOptions]) with 1%nat. lia.
Qed.

Lemma extractFaceData_detector_call_witness :
  detector_calls
    (trace (snd (extractFaceData (Sample.world 640 480 []) (mkImage 640 480 []) initial)))
  = 1%nat.
Proof.
  destruct (extractFaceData_detector_call (Sample.world 640 480 []) (mkImage 640 480 []) initial)
    as [_ H].
  - reflexivity.
  - split; discriminate.
  - exact H.
Defined.

(** ** [POST /verify] (lines 176-220) *)

(** X9.  The first lines of the handler.  When [req.body] is an object, a
    request without a [referenceImageUrl], with an empty one, or without a
    selfie file is answered with 400 and the validation message before
    anything else happens: nothing is fetched, decoded, loaded or logged.
    When [req.body] is undefined, the destructuring of line 178 throws inside
    the [try]: the answer is the fixed 500, the error is logged, and nothing
    else happens.  The validation message is given in no other case. *)
Theorem verify_missing_input w req st :
  (forall body,
     req_body req = Some body ->
     truthy (referenceImageUrl body) = false \/ req_file req = None ->
     verify w req st
     = (Normal (mkResponse 400 (JsonMsg "referenceImageUrl and selfie file required")), st))
  /\ (req_body req = None ->
      verify w req st
      = (Normal (mkResponse 500 (JsonMsg "Face verification failed")),
         mkState (modelsLoaded st)
           (trace st ++ [EvLogError "Verification error:" destructure_undefined])))
  /\ (fst (verify w req st)
      = Normal (mkResponse 400 (JsonMsg "referenceImageUrl and selfie file required")) ->
      exists body,
        req_body req = Some body
        /\ (truthy (referenceImageUrl body) = false \/ req_file req = None)).
Proof.
  split; [|split].
  - intros body Hbody H. unfold verify, try_catch.
    now rewrite (verify_body_missing_input w req st body Hbody H).
  - intros Hbody. unfold verify, try_catch.
    now rewrite (verify_body_no_body w req st Hbody).
  - rewrite verify_of_body.
    destruct (req_body req) as [body|] eqn:Hbody.
    2:{ rewrite (verify_body_no_body w req st Hbody). discriminate. }
    intros H. exists body. split; [reflexivity|].
    destruct (truthy (referenceImageUrl body)) eqn:Ht; [|auto].
    destruct (req_file req) as [selfie|] eqn:Hf; [|auto].
    exfalso. destruct (truthy_some _ Ht) as [url Hu].
    assert (Hurl : body_referenceImageUrl req = Some url)
      by (unfold body_referenceImageUrl; rewrite Hbody; exact Hu).
    rewrite Hu in Ht.
    rewrite (verify_body_steps w req st url selfie Hurl Ht Hf) in H.
    destruct (loadImageFromUrl w url st) as [[refImg|e] st1]; [|discriminate].
    destruct (extractFaceData w refImg st1) as [[[msg|refDescriptor]|e] st2];
      try discriminate.
    destruct (loadImageFromBuffer w (file_buffer selfie) st2) as [[selfieImg|e] st3];
      [|discriminate].
    destruct (extractFaceData w selfieImg st3) as [[[msg|selfieDescriptor]|e] st4];
      try discriminate.
    destruct (compareFaces refDescriptor selfieDescriptor); discriminate.
Qed.

Lemma verify_missing_input_witness :
  verify Sample.world_without_models Sample.request_empty_url initial
  = (Normal (mkResponse 400 (JsonMsg "referenceImageUrl and selfie file required")), initial)
  /\ verify Sample.world_without_models Sample.request_without_body initial
     = (Normal (mkResponse 500 (JsonMsg "Face verification failed")),
        mkState false [EvLogError "Verification error:" destructure_undefined]).
Proof.
  split.
  - destruct (verify_missing_input Sample.world_without_models Sample.request_empty_url
                initial) as [H _].
    apply (H (mkBody (Some EmptyString))).
    + reflexivity.
    + left. reflexivity.
  - destruct (verify_missing_input Sample.world_without_models Sample.request_without_body
                initial) as (_ & H & _).
    apply H. reflexivity.
Defined.

(** X11.  When the reference stage yields no descriptor (the fetch or the
    decoding fails, the models do not load, the detector throws or the image
    is rejected), the answer and the final state do not depend on the
    uploaded selfie in any way. *)
Theorem reference_failure_ignores_selfie w st url selfie1 selfie2 :
  truthy (Some url) = true ->
  (forall refImg st1 d st2,
     loadImageFromUrl w url st = (Normal refImg, st1) ->
     extractFaceData w refImg st1 <> (Normal (Extracted d), st2)) ->
  verify w (mkRequest (Some (mkBody (Some url))) (Some selfie1)) st
  = verify w (mkRequest (Some (mkBody (Some url))) (Some selfie2)) st.
Proof.
  intros Ht Hno. unfold verify, try_catch.
  rewrite (verify_body_steps w (mkRequest (Some (mkBody (Some url))) (Some selfie1))
             st url selfie1 eq_refl Ht eq_refl).
  rewrite (verify_body_steps w (mkRequest (Some (mkBody (Some url))) (Some selfie2))
             st url selfie2 eq_refl Ht eq_refl).
  destruct (loadImageFromUrl w url st) as [[refImg|e] st1]; [|reflexivity].
  specialize (Hno refImg st1).
  destruct (extractFaceData w refImg st1) as [[[msg|d]|e] st2]; try reflexivity.
  exfalso. exact (Hno d st2 eq_refl eq_refl).
Qed.

Lemma reference_failure_ignores_selfie_witness :
  verify (Sample.world 200 200 [200%float])
    (mkRequest (Some (mkBody (Some "http://example.org/id.jpg")))
       (Some (mkFile [x00]%byte))) initial
  = verify (Sample.world 200 200 [200%float])
      (mkRequest (Some (mkBody (Some "http://example.org/id.jpg")))
         (Some (mkFile [x01; x02]%byte))) initial.
Proof.
  apply (reference_failure_ignores_selfie (Sample.world 200 200 [200%float]) initial).
  - reflexivity.
  - intros refImg st1 d st2 H. vm_compute in H. injection H as <- <-.
    vm_compute. discriminate.
Defined.

(** X12.  A reference URL that answers with a status that is not ok costs
    one fetch and nothing else: the handler logs the error, answers with the
    fixed 500, and neither decodes an image nor loads a model nor calls the
    detector. *)
Theorem verify_fetch_refused w req st url selfie res :
  body_referenceImageUrl req = Some url -> truthy (Some url) = true ->
  req_file req = Some selfie ->
  fetch w url = Normal res -> res_ok res = false ->
  verify w req st
  = (Normal server_error,
     mkState (modelsLoaded st)
       (trace st ++ [EvFetch url;
                     EvLogError "Verification error:"
                       (JSError "Failed to fetch reference image")])).
Proof.
  intros Hurl Ht Hfile Hf Hok. unfold verify, try_catch.
  rewrite (verify_body_steps w req st url selfie Hurl Ht Hfile).
  rewrite loadImageFromUrl_steps. cbv zeta. rewrite Hf, Hok.
  unfold bind, console_error, emit, ret, record. cbn [trace modelsLoaded].
  rewrite <- app_assoc. reflexivity.
Qed.

Lemma verify_fetch_refused_witness :
  verify Sample.world_fetch_404 Sample.request initial
  = (Normal server_error,
     mkState false
       [EvFetch "http://example.org/id.jpg";
        EvLogError "Verification error:" (JSError "Failed to fetch reference image")]).
Proof.
  exact (verify_fetch_refused Sample.world_fetch_404 Sample.request initial
           _ _ _ eq_refl eq_refl eq_refl eq_refl eq_refl).
Defined.

(** ** Calls made by one request *)

Lemma loadModels_appends w st :
  exists evs,
    trace (snd (loadModels w st)) = trace st ++ evs
    /\ fetch_calls evs = 0%nat /\ decoder_calls evs = 0%nat /\ detector_calls evs = 0%nat
    /\ (model_loads evs <= 3)%nat
    /\ (modelsLoaded st = true -> evs = []).
Proof.
  unfold loadModels, bind, get_modelsLoaded, net_loadFromDisk, bind, emit, await,
    console_log, emit, set_modelsLoaded, ret, record.
  destruct (modelsLoaded st).
  - exists []. cbn [snd]. rewrite app_nil_r. repeat split; auto; cbn; lia.
  - destruct (loadFromDisk w ssdMobilenetv1 (modelPath w));
      [destruct (loadFromDisk w faceLandmark68Net (modelPath w));
       [destruct (loadFromDisk w faceRecognitionNet (modelPath w))|]|];
      cbn [snd trace modelsLoaded]; rewrite <- ?app_assoc; eexists;
      (split; [reflexivity|]); cbn; repeat split; try lia; discriminate.
Qed.

Lemma extractFaceData_appends w image st :
  exists evs,
    trace (snd (extractFaceData w image st)) = trace st ++ evs
    /\ fetch_calls evs = 0%nat /\ decoder_calls evs = 0%nat
    /\ (detector_calls evs <= 1)%nat /\ (model_loads evs <= 3)%nat
    /\ (modelsLoaded st = true -> model_loads evs = 0%nat).
Proof.
  rewrite extractFaceData_steps.
  destruct (loadModels_appends w st) as (evs & Etr & Hf & Hd & Hdet & Hl & Hnil).
  destruct (loadModels w st) as [[u|e] st1]; cbn [snd] in *.
  - destruct (_ || _)%bool; cbv zeta.
    + exists evs. cbn [snd]. repeat split; try assumption; try lia.
      intros H. rewrite (Hnil H). reflexivity.
    + exists (evs ++ [EvDetect image detectorOptions]).
      assert (E : snd match detectAllFaces w image detectorOptions with
                      | Normal ds => (Normal (singleFace ds),
                                      record (EvDetect image detectorOptions) st1)
                      | Throw e => (Throw e, record (EvDetect image detectorOptions) st1)
                      end = record (EvDetect image detectorOptions) st1)
        by (destruct (detectAllFaces w image detectorOptions); reflexivity).
      rewrite E, record_trace, Etr, app_assoc.
      rewrite fetch_calls_app, decoder_calls_app, detector_calls_app, model_loads_app.
      change (fetch_calls [EvDetect image detectorOptions]) with 0%nat.
      change (decoder_calls [EvDetect image detectorOptions]) with 0%nat.
      change (detector_calls [EvDetect image detectorOptions]) with 1%nat.
      change (model_loads [EvDetect image detectorOptions]) with 0%nat.
      repeat split; try lia.
      intros H. rewrite (Hnil H). reflexivity.
  - exists evs. repeat split; try assumption; try lia.
    intros H. rewrite (Hnil H). reflexivity.
Qed.

Lemma loadImageFromUrl_appends w url st :
  exists evs,
    trace (snd (loadImageFromUrl w url st)) = trace st ++ evs
    /\ fetch_calls evs = 1%nat /\ (decoder_calls evs <= 1)%nat
    /\ detector_calls evs = 0%nat /\ model_loads evs = 0%nat
    /\ modelsLoaded (snd (loadImageFromUrl w url st)) = modelsLoaded st.
Proof.
  rewrite loadImageFromUrl_steps. cbv zeta. unfold record.
  destruct (fetch w url) as [res|e];
    [destruct (res_ok res); [destruct (res_buffer res) as [buffer|e]|]|];
    cbn [snd trace modelsLoaded]; rewrite <- ?app_assoc; eexists;
    (split; [reflexivity|]); cbn; repeat split; lia.
Qed.

Lemma loadImageFromBuffer_appends w buffer st :
  trace (snd (loadImageFromBuffer w buffer st)) = trace st ++ [EvLoadImage buffer]
  /\ modelsLoaded (snd (loadImageFromBuffer w buffer st)) = modelsLoaded st.
Proof. rewrite loadImageFromBuffer_steps. split; reflexivity. Qed.

(** The calls of a request whose two inputs are present. *)
Lemma verify_body_appends w req st :
  exists evs,
    trace (snd (verify_body w req st)) = trace st ++ evs
    /\ (fetch_calls evs <= 1)%nat /\ (decoder_calls evs <= 2)%nat
    /\ (detector_calls evs <= 2)%nat /\ (model_loads evs <= 3)%nat
    /\ (modelsLoaded st = true -> model_loads evs = 0%nat).
Proof.
  destruct (verify_body_cases w req st) as [E|[E|(url & selfie & Hu & Ht & Hf)]].
  1,2: rewrite E; exists []; cbn [snd]; rewrite app_nil_r; cbn; repeat split; lia.
  rewrite (verify_body_steps w req st url selfie Hu Ht Hf).
  destruct (loadImageFromUrl_appends w url st) as (ev1 & T1 & F1 & D1 & X1 & L1 & M1).
  destruct (loadImageFromUrl w url st) as [[refImg|e] st1]; cbn [snd] in *.
  2:{ exists ev1. repeat split; try assumption; lia. }
  destruct (extractFaceData_appends w refImg st1) as (ev2 & T2 & F2 & D2 & X2 & L2 & N2).
  pose proof (extractFaceData_sets_flag w refImg st1) as Flag.
  rewrite M1 in N2.
  destruct (extractFaceData w refImg st1) as [[[msg|refDescriptor]|e] st2]; cbn [snd] in *.
  1,3: exists (ev1 ++ ev2); rewrite T2, T1, app_assoc;
       rewrite fetch_calls_app, decoder_calls_app, detector_calls_app, model_loads_app;
       repeat split; try lia; intros H; rewrite (N2 H); lia.
  specialize (Flag _ _ eq_refl).
  destruct (loadImageFromBuffer_appends w (file_buffer selfie) st2) as (T3 & M3).
  destruct (loadImageFromBuffer w (file_buffer selfie) st2) as [[selfieImg|e] st3];
    cbn [snd] in *.
  2:{ exists (ev1 ++ ev2 ++ [EvLoadImage (file_buffer selfie)]).
      rewrite T3, T2, T1, <- !app_assoc.
      rewrite !fetch_calls_app, !decoder_calls_app, !detector_calls_app, !model_loads_app.
      cbn. repeat split; try lia. intros H; rewrite (N2 H); lia. }
  destruct (extractFaceData_appends w selfieImg st3) as (ev4 & T4 & F4 & D4 & X4 & L4 & N4).
  rewrite M3, Flag in N4. specialize (N4 eq_refl).
  exists (ev1 ++ ev2 ++ [EvLoadImage (file_buffer selfie)] ++ ev4).
  assert (E : trace (snd (let (c, st4) := extractFaceData w selfieImg st3 in
                          match c with
                          | Normal (Server.Rejected msg) =>
                              (Normal (bad_request ("Selfie error: " ++ msg)%string), st4)
                          | Normal (Extracted selfieDescriptor) =>
                              match compareFaces refDescriptor selfieDescriptor with
                              | Normal result =>
                                  (Normal (mkResponse 200 (JsonResult result)), st4)
                              | Throw e => (Throw e, st4)
                              end
                          | Throw e => (Throw e, st4)
                          end))
              = trace (snd (extractFaceData w selfieImg st3))).
  { destruct (extractFaceData w selfieImg st3) as [[[msg|d]|e] st4]; try reflexivity.
    destruct (compareFaces refDescriptor d); reflexivity. }
  rewrite E, T4, T3, T2, T1, <- !app_assoc.
  rewrite !fetch_calls_app, !decoder_calls_app, !detector_calls_app, !model_loads_app.
  cbn. repeat split; try lia. intros H; rewrite (N2 H); lia.
Qed.

(** X10.  Whatever the request and whatever the collaborators do, one
    request makes at most one fetch, two decoder calls, two detector calls
    and three model loads. *)
Theorem verify_call_budget w req st :
  (fetch_calls (trace (snd (verify w req st))) <= fetch_calls (trace st) + 1)%nat
  /\ (decoder_calls (trace (snd (verify w req st))) <= decoder_calls (trace st) + 2)%nat
  /\ (detector_calls (trace (snd (verify w req st))) <= detector_calls (trace st) + 2)%nat
  /\ (model_loads (trace (snd (verify w req st))) <= model_loads (trace st) + 3)%nat.
Proof.
  destruct (verify_body_appends w req st) as (evs & T & F & D & X & L & _).
  unfold verify, try_catch.
  destruct (verify_body w req st) as [[resp|e] st1]; cbn [snd] in *.
  - rewrite T, fetch_calls_app, decoder_calls_app, detector_calls_app, model_loads_app. lia.
  - unfold bind, console_error, emit, ret. cbn [snd]. rewrite record_trace, T.
    rewrite !fetch_calls_app, !decoder_calls_app, !detector_calls_app, !model_loads_app.
    cbn. lia.
Qed.

(** X13.  Once the models are loaded no request loads them again, and they
    stay loaded. *)
Theorem verify_never_reloads w req st :
  modelsLoaded st = true ->
  model_loads (trace (snd (verify w req st))) = model_loads (trace st)
  /\ modelsLoaded (snd (verify w req st)) = true.
Proof.
  intros Hl.
  destruct (verify_body_appends w req st) as (evs & T & _ & _ & _ & _ & N).
  specialize (N Hl).
  assert (Flag : modelsLoaded (snd (verify_body w req st)) = true).
  { destruct (verify_body_cases w req st) as [E|[E|(url & selfie & Hu & Ht & Hf)]].
    1,2: rewrite E; exact Hl.
    rewrite (verify_body_steps w req st url selfie Hu Ht Hf).
    destruct (loadImageFromUrl_appends w url st) as (ev1 & _ & _ & _ & _ & _ & M1).
    destruct (loadImageFromUrl w url st) as [[refImg|e] st1]; cbn [snd] in *;
      [|congruence].
    assert (Keep : forall img s, modelsLoaded s = true ->
                     modelsLoaded (snd (extractFaceData w img s)) = true).
    { intros img s Hs. rewrite extractFaceData_steps, (loadModels_loaded w s Hs).
      destruct (_ || _)%bool; [exact Hs|]. cbv zeta.
      destruct (detectAllFaces w img detectorOptions); exact Hs. }
    pose proof (Keep refImg st1 ltac:(congruence)) as K1.
    destruct (extractFaceData w refImg st1) as [[[msg|refDescriptor]|e] st2]; cbn [snd] in *;
      try exact K1.
    destruct (loadImageFromBuffer_appends w (file_buffer selfie) st2) as (_ & M3).
    destruct (loadImageFromBuffer w (file_buffer selfie) st2) as [[selfieImg|e] st3];
      cbn [snd] in *; [|congruence].
    pose proof (Keep selfieImg st3 ltac:(congruence)) as K2.
    destruct (extractFaceData w selfieImg st3) as [[[msg|d]|e] st4]; cbn [snd] in *;
      try exact K2.
    destruct (compareFaces refDescriptor d); exact K2. }
  unfold verify, try_catch.
  destruct (verify_body w req st) as [[resp|e] st1]; cbn [snd] in *.
  - rewrite T, model_loads_app, N. split; [lia|exact Flag].
  - unfold bind, console_error, emit, ret. cbn [snd]. rewrite record_trace, T.
    rewrite !model_loads_app, N. cbn. split; [lia|exact Flag].
Qed.

Lemma verify_never_reloads_witness :
  model_loads
    (trace (snd (verify (Sample.world 640 480 [200%float]) Sample.request (mkState true []))))
  = 0%nat
  /\ modelsLoaded (snd (verify (Sample.world 640 480 [200%float]) Sample.request
                          (mkState true []))) = true.
Proof.
  exact (verify_never_reloads (Sample.world 640 480 [200%float]) Sample.request
           (mkState true []) eq_refl).
Defined.

(** X14.  [compareFaces] does not check the lengths of its arguments; the
    distance function throws on a mismatch.  When the detector hands out
    descriptors of different lengths for the two images, both extractions
    succeed and the request is answered with the fixed 500. *)
Theorem verify_descriptor_length_mismatch
        w req st url selfie refImg st1 d1 st2 selfieImg st3 d2 st4 :
  body_referenceImageUrl req = Some url -> truthy (Some url) = true ->
  req_file req = Some selfie ->
  loadImageFromUrl w url st = (Normal refImg, st1) ->
  extractFaceData w refImg st1 = (Normal (Extracted d1), st2) ->
  loadImageFromBuffer w (file_buffer selfie) st2 = (Normal selfieImg, st3) ->
  extractFaceData w selfieImg st3 = (Normal (Extracted d2), st4) ->
  List.length d1 <> List.length d2 ->
  compareFaces d1 d2 = Throw (JSError "euclideanDistance: arr1.length !== arr2.length")
  /\ fst (verify w req st) = Normal server_error.
Proof.
  intros Hurl Ht Hfile H1 H2 H3 H4 Hlen.
  assert (Hc : compareFaces d1 d2
               = Throw (JSError "euclideanDistance: arr1.length !== arr2.length")).
  { unfold compareFaces, faceapi.euclideanDistance.
    apply Nat.eqb_neq in Hlen. rewrite Hlen. reflexivity. }
  split; [exact Hc|].
  rewrite verify_of_body, (verify_body_steps w req st url selfie Hurl Ht Hfile).
  rewrite H1, H2, H3, H4, Hc. reflexivity.
Qed.

Lemma verify_descriptor_length_mismatch_witness :
  fst (verify Sample.world_ragged_descriptors Sample.request_long_selfie initial)
  = Normal server_error.
Proof.
  refine (proj2 (verify_descriptor_length_mismatch Sample.world_ragged_descriptors
                   Sample.request_long_selfie initial
                   _ _ _ _ _ _ _ _ _ _ eq_refl eq_refl eq_refl eq_refl eq_refl eq_refl eq_refl _)).
  discriminate.
Defined.

(** ** [compareFaces] (lines 147-160) *)

Lemma sub_self_zero x : Binary64.finite x = true -> (x - x)%float = 0%float.
Proof.
  intros H. apply Prim2SF_inj. rewrite sub_spec.
  destruct (finite_inv x H) as [[s ->]|(s & m & e & ->)].
  - destruct s; reflexivity.
  - unfold SF64sub, SFsub. rewrite Z.sub_diag. reflexivity.
Qed.

Lemma sum_squares_self d :
  Forall (fun x => Binary64.finite x = true) d ->
  fold_left (fun res diff => (res + JS.Math_pow2 diff)%float)
            (map (fun p => (fst p - snd p)%float) (combine d d)) 0%float
  = 0%float.
Proof.
  induction 1 as [|x d Hx Hd IH]; [reflexivity|].
  cbn [combine map fold_left fst snd]. rewrite (sub_self_zero x Hx). exact IH.
Qed.

(** X15.  A descriptor of finite numbers compared with itself is at
    distance 0: the result is verified, with match percentage 100. *)
Theorem compareFaces_same_descriptor d :
  Forall (fun x => Binary64.finite x = true) d ->
  compareFaces d d
  = Normal {| verified := true;
              distance := 0%float;
              matchPercentage := 100%float;
              threshold := FACE_MATCH_THRESHOLD |}.
Proof.
  intros H.
  assert (E : faceapi.euclideanDistance d d = Normal 0%float).
  { unfold faceapi.euclideanDistance. rewrite Nat.eqb_refl. cbn [negb].
    cbv zeta. rewrite (sum_squares_self d H). reflexivity. }
  rewrite (compareFaces_of_distance d d _ E). vm_compute. reflexivity.
Qed.

Lemma compareFaces_same_descriptor_witness :
  compareFaces [0x1.3333333333333p-2%float; (-2)%float] [0x1.3333333333333p-2%float; (-2)%float]
  = Normal {| verified := true;
              distance := 0%float;
              matchPercentage := 100%float;
              threshold := FACE_MATCH_THRESHOLD |}.
Proof.
  apply (compareFaces_same_descriptor [0x1.3333333333333p-2%float; (-2)%float]).
  repeat constructor.
Defined.

(** X16.  A distance that is NaN (embeddings holding NaN, or infinities that
    cancel) is never verified; the percentage and the reported distance are
    NaN as well, the clamp letting NaN through. *)
Theorem compareFaces_nan_distance d1 d2 dist r :
  faceapi.euclideanDistance d1 d2 = Normal dist ->
  is_nan dist = true ->
  compareFaces d1 d2 = Normal r ->
  verified r = false
  /\ is_nan (matchPercentage r) = true
  /\ is_nan (distance r) = true.
Proof.
  intros Hd Hn Hr.
  assert (E : dist = nan).
  { apply Prim2SF_inj. rewrite is_nan_spec in Hn.
    destruct (Prim2SF dist); try discriminate. reflexivity. }
  subst dist. rewrite (compareFaces_of_distance _ _ _ Hd) in Hr.
  injection Hr as <-. repeat split; vm_compute; reflexivity.
Qed.

Lemma compareFaces_nan_distance_witness :
  exists r,
    compareFaces [infinity] [infinity] = Normal r
    /\ verified r = false
    /\ is_nan (matchPercentage r) = true
    /\ is_nan (distance r) = true.
Proof.
  eexists. split; [vm_compute; reflexivity|].
  apply (compareFaces_nan_distance [infinity] [infinity] nan); vm_compute; reflexivity.
Defined.

(** ** [loadModels], calls one after the other *)

(** X17.  When a second call of [loadModels] starts only after the first has
    returned, it returns at once: every network has been loaded once, and the
    state is the one a single call leaves. *)
Theorem sequential_calls_load_once w st :
  modelsLoaded st = false ->
  (forall n, loadFromDisk w n (modelPath w) = Normal tt) ->
  let s := run w [0; 0; 0; 0; 1]%nat (mkSystem st [AtEntry; AtEntry]) in
  sys_calls s = [Returned; Returned]
  /\ sys_state s = snd (loadModels w st)
  /\ forall n, loads_of n (trace (sys_state s)) = (loads_of n (trace st) + 1)%nat.
Proof.
  intros Hl Hok. cbv zeta.
  do 5 race_step Hok.
  cbn [run fold_left sys_calls sys_state].
  split; [reflexivity|]. split.
  - unfold loadModels, bind, get_modelsLoaded, net_loadFromDisk, bind, emit, await,
      console_log, emit, set_modelsLoaded, ret.
    rewrite Hl, !Hok. reflexivity.
  - intros n. unfold record. cbn [trace modelsLoaded].
    rewrite <- !app_assoc, loads_of_app. destruct n; reflexivity.
Qed.

Lemma sequential_calls_load_once_witness :
  let s := run (Sample.world 640 480 []) [0; 0; 0; 0; 1]%nat
             (mkSystem initial [AtEntry; AtEntry]) in
  sys_calls s = [Returned; Returned]
  /\ sys_state s = snd (loadModels (Sample.world 640 480 []) initial)
  /\ forall n, loads_of n (trace (sys_state s)) = 1%nat.
Proof.
  exact (sequential_calls_load_once (Sample.world 640 480 []) initial eq_refl
           (fun n => eq_refl)).
Defined.

(** ** The match percentage of a result that is not verified *)

Local Open Scope Z_scope.

Lemma shl_align_snd m e e' : e' <= e -> snd (shl_align m e e') = e'.
Proof.
  intros H. unfold shl_align. destruct (e' - e) as [|d|d] eqn:E; cbn [snd]; lia.
Qed.

(** Rounding a mantissa of at most 53 digits, in the normal range. *)
Lemma binary_round_short s M e :
  Zdigits2 (Zpos M) <= 53 ->
  -1074 <= Zdigits2 (Zpos M) + e - 53 ->
  exists m' e',
    binary_round prec emax s M e
    = (if e' <=? 971 then S754_finite s m' e' else S754_infinity s)
    /\ Zdigits2 (Zpos M) + e - 53 <= e' <= Zdigits2 (Zpos M) + e - 52
    /\ 2 ^ 52 <= Zpos m' < 2 ^ 53
    /\ mag m' e' <= Zpos M * 2 ^ (e + 1074) + 2 ^ (Zdigits2 (Zpos M) + e - 53 + 1074).
Proof.
  intros HD Hn.
  pose proof (digits2_bounds M) as [Dlo Dhi].
  change (Zpos (digits2_pos M)) with (Zdigits2 (Zpos M)) in Dlo, Dhi.
  set (D := Zdigits2 (Zpos M)) in *.
  assert (HD1 : 1 <= D) by (unfold D; simpl; lia).
  set (ez := D + e - 53).
  unfold binary_round.
  change (Zpos (digits2_pos M)) with D. rewrite fexp64.
  replace (Z.max (D + e - 53) (-1074)) with ez by (unfold ez; lia).
  pose proof (shl_align_le M e ez ltac:(unfold ez; lia)) as Hfst.
  pose proof (shl_align_snd M e ez ltac:(unfold ez; lia)) as Hsnd.
  destruct (shl_align M e ez) as [mz ez']. cbn [fst snd] in Hfst, Hsnd. subst ez'.
  replace (e - ez) with (53 - D) in Hfst by (unfold ez; lia).
  assert (Hmz : 2 ^ 52 <= Zpos mz < 2 ^ 53).
  { rewrite Hfst. pose proof (pow2_pos (53 - D) ltac:(lia)).
    assert (E1 : 2 ^ 52 = 2 ^ (D - 1) * 2 ^ (53 - D))
      by (rewrite <- Z.pow_add_r by lia; f_equal; lia).
    assert (E2 : 2 ^ 53 = 2 ^ D * 2 ^ (53 - D))
      by (rewrite <- Z.pow_add_r by lia; f_equal; lia).
    rewrite E1, E2. split.
    - apply Z.mul_le_mono_nonneg_r; lia.
    - apply Z.mul_lt_mono_pos_r; lia. }
  assert (Dz : Zdigits2 (Zpos mz) = 53)
    by (apply Zdigits2_unique; [lia|change (53 - 1) with 52; exact Hmz]).
  destruct (binary_round_aux_normal s (Zpos mz) ez loc_Exact)
    as (m' & e' & Hr & He' & Hm' & Hb); rewrite ?Dz; try (unfold ez; lia).
  rewrite Dz in He', Hb. change (53 - 53) with 0 in He', Hb.
  change (2 ^ 0) with 1 in Hb. rewrite Z.div_1_r, !Z.mul_1_r in Hb.
  exists m', e'. split; [exact Hr|]. split; [unfold ez in *; lia|]. split; [exact Hm'|].
  unfold mag. fold ez.
  pose proof (pow2_pos (ez + 1074) ltac:(unfold ez; lia)) as HY.
  replace (e' + 1074) with ((e' - ez) + (ez + 1074)) by lia.
  rewrite (Z.pow_add_r 2 (e' - ez) (ez + 1074)) by (unfold ez in *; lia).
  rewrite Z.mul_assoc.
  assert (H1 : Zpos m' * 2 ^ (e' - ez) * 2 ^ (ez + 1074) <= (Zpos mz + 1) * 2 ^ (ez + 1074))
    by (apply Z.mul_le_mono_nonneg_r; lia).
  assert (H2 : Zpos mz * 2 ^ (ez + 1074) = Zpos M * 2 ^ (e + 1074)).
  { rewrite Hfst, <- Z.mul_assoc, <- Z.pow_add_r by (unfold ez; lia).
    f_equal. f_equal. unfold ez. lia. }
  rewrite Z.mul_add_distr_r, H2, Z.mul_1_l in H1. exact H1.
Qed.

(** [1 - d] for [0.48 <= d < 1] *)
Lemma sub_one_above_threshold m e :
  bounded prec emax m e = true ->
  mag thr_m (-54) <= mag m e -> mag m e < mag one_m (-52) ->
  exists m' e',
    SFsub prec emax (S754_finite false one_m (-52)) (S754_finite false m e)
    = S754_finite false m' e'
    /\ -105 <= e' <= -52 /\ 2 ^ 52 <= Zpos m' < 2 ^ 53
    /\ mag m' e' <= 9367487224930634 * 2 ^ 1020.
Proof.
  intros B Hlo Hhi.
  assert (He1 : e <= -53).
  { destruct (Z_le_gt_dec e (-53)) as [|Hg]; [assumption|exfalso].
    destruct (Z.eq_dec e (-52)) as [->|Hne].
    - pose proof (bounded_inv _ _ B) as (_ & _ & Hl). specialize (Hl ltac:(lia)).
      unfold mag in Hhi. apply Z.mul_lt_mono_pos_r in Hhi; [|apply pow2_pos; lia].
      change (Zpos one_m) with (2 ^ 52) in Hhi. lia.
    - pose proof (mag_lt_of_exp one_m (-52) m e eq_refl B ltac:(lia)). lia. }
  assert (He2 : -54 <= e).
  { destruct (Z_le_gt_dec (-54) e) as [|Hg]; [assumption|exfalso].
    pose proof (mag_lt_of_exp m e thr_m (-54) B eq_refl ltac:(lia)). lia. }
  apply bounded_inv in B as (He & Hu & Hl). specialize (Hl ltac:(lia)).
  pose proof (pow2_pos 1020 ltac:(lia)) as HQ.
  unfold SFsub. rewrite Z.min_r by lia. unfold cond_Zopp.
  rewrite !shl_align_le by lia. rewrite Z.sub_diag. change (2 ^ 0) with 1.
  rewrite Z.mul_1_r. change (Zpos one_m) with (2 ^ 52).
  rewrite <- Z.pow_add_r by lia.
  rewrite mag_threshold in Hlo. unfold mag in Hlo, Hhi.
  assert (Ecase : e = -54 \/ e = -53) by lia.
  destruct Ecase as [-> | ->].
  - (* 0.48 <= d < 0.5 *)
    change (52 + (-52 - -54)) with 54. change (-54 + 1074) with 1020 in Hlo.
    apply Z.mul_le_mono_pos_r in Hlo; [|exact HQ].
    change (2 ^ 53) with 9007199254740992 in Hu.
    change (2 ^ 54) with 18014398509481984.
    unfold thr_m in Hlo.
    destruct (18014398509481984 - Zpos m) as [|M|M] eqn:EM; try lia.
    unfold binary_normalize, binary_round.
    assert (DM : Zdigits2 (Zpos M) = 54).
    { apply Zdigits2_unique; [lia|]. change (54 - 1) with 53.
      change (2 ^ 53) with 9007199254740992. change (2 ^ 54) with 18014398509481984. lia. }
    change (Zpos (digits2_pos M)) with (Zdigits2 (Zpos M)). rewrite DM.
    change (fexp prec emax (54 + -54)) with (-53).
    rewrite shl_align_ge by lia.
    destruct (binary_round_aux_normal false (Zpos M) (-54) loc_Exact)
      as (m' & e' & Hr & He' & Hm' & Hb); rewrite ?DM; try lia.
    rewrite DM in He', Hb. change (54 - 53) with 1 in He', Hb. change (2 ^ 1) with 2 in Hb.
    exists m', e'. rewrite Hr.
    replace (e' <=? 971) with true by (symmetry; apply Z.leb_le; lia).
    split; [reflexivity|]. split; [lia|]. split; [exact Hm'|].
    unfold mag.
    replace (e' + 1074) with ((e' - -54) + 1020) by lia.
    rewrite (Z.pow_add_r 2 (e' - -54) 1020) by lia. rewrite Z.mul_assoc.
    apply Z.mul_le_mono_nonneg_r; [lia|].
    destruct Hb as [_ Hb].
    pose proof (Z.mul_div_le (Zpos M) 2 ltac:(lia)). lia.
  - (* 0.5 <= d < 1 *)
    change (52 + (-52 - -53)) with 53.
    change (2 ^ 53) with 9007199254740992 in *. change (2 ^ 52) with 4503599627370496 in *.
    destruct (9007199254740992 - Zpos m) as [|M|M] eqn:EM; try lia.
    unfold binary_normalize.
    pose proof (digits2_bounds M) as [Dlo Dhi].
    change (Zpos (digits2_pos M)) with (Zdigits2 (Zpos M)) in Dlo, Dhi.
    assert (HD1 : 1 <= Zdigits2 (Zpos M)) by (simpl; lia).
    assert (HD : Zdigits2 (Zpos M) <= 53).
    { destruct (Z_le_gt_dec (Zdigits2 (Zpos M)) 53) as [|Hg]; [assumption|exfalso].
      assert (2 ^ 53 <= 2 ^ (Zdigits2 (Zpos M) - 1)) by (apply pow2_le; lia).
      change (2 ^ 53) with 9007199254740992 in *. lia. }
    destruct (binary_round_short false M (-53) HD ltac:(lia))
      as (m' & e' & Hr & He' & Hm' & Hb).
    exists m', e'. rewrite Hr.
    replace (e' <=? 971) with true by (symmetry; apply Z.leb_le; lia).
    split; [reflexivity|]. split; [lia|].
    split; [change (2 ^ 53) with 9007199254740992; change (2 ^ 52) with 4503599627370496;
            exact Hm'|].
    change (-53 + 1074) with (1 + 1020) in Hb.
    rewrite (Z.pow_add_r 2 1 1020) in Hb by lia. change (2 ^ 1) with 2 in Hb.
    assert (H2 : 2 ^ (Zdigits2 (Zpos M) + -53 - 53 + 1074) <= 2 ^ 1 * 2 ^ 1020).
    { rewrite <- Z.pow_add_r by lia. apply pow2_le. lia. }
    change (2 ^ 1) with 2 in H2.
    revert Hb H2 HQ. 
    generalize (mag m' e') (2 ^ (Zdigits2 (Zpos M) + -53 - 53 + 1074)) (2 ^ 1020).
    intros R K Q ? ? ?. nia.
Qed.

(** [x * 100] from above, for [x] in [[2^-53, 1]] *)
Lemma mul_hundred_upper m e :
  2 ^ 52 <= Zpos m < 2 ^ 53 -> -105 <= e <= -52 ->
  exists m' e',
    SFmul prec emax (S754_finite false m e) (S754_finite false hundred_m (-46))
    = S754_finite false m' e'
    /\ 2 ^ 45 * mag m' e' <= (100 * 2 ^ 45 + 1) * mag m e.
Proof.
  intros Hm He. unfold SFmul. change (xorb false false) with false.
  set (P := (m * hundred_m)%positive).
  assert (EP : Zpos P = Zpos m * (100 * 2 ^ 46)) by (unfold P; rewrite Pos2Z.inj_mul; reflexivity).
  pose proof (digits2_bounds P) as [Dlo Dhi].
  change (Zpos (digits2_pos P)) with (Zdigits2 (Zpos P)) in Dlo, Dhi.
  set (D := Zdigits2 (Zpos P)) in *.
  assert (HD : 105 <= D <= 106).
  { split.
    - destruct (Z_lt_le_dec D 105) as [Hc|]; [exfalso|assumption].
      assert (2 ^ D <= 2 ^ 104) by (apply pow2_le; lia).
      assert (2 ^ 52 * (100 * 2 ^ 46) <= Zpos P) by (rewrite EP; apply Z.mul_le_mono_nonneg_r; lia).
      lia.
    - destruct (Z_lt_le_dec 106 D) as [Hc|]; [exfalso|lia].
      assert (2 ^ 106 <= 2 ^ (D - 1)) by (apply pow2_le; lia).
      assert (Zpos P < 2 ^ 53 * (100 * 2 ^ 46)) by (rewrite EP; apply Z.mul_lt_mono_pos_r; lia).
      lia. }
  destruct (binary_round_aux_normal false (Zpos P) (e + -46) loc_Exact)
    as (m' & e' & Hr & He' & Hm' & Hb); fold D; try lia.
  fold D in He', Hb. set (k := D - 53) in *.
  exists m', e'. rewrite Hr.
  replace (e' <=? 971) with true by (symmetry; apply Z.leb_le; unfold k in He'; lia).
  split; [reflexivity|].
  unfold mag.
  set (e0 := e + -46) in *.
  assert (Hk : 0 <= k) by (unfold k; lia).
  pose proof (pow2_pos k Hk) as Hpk.
  pose proof (pow2_pos (e0 + 1074) ltac:(unfold e0; lia)) as HpY.
  replace (e' + 1074) with ((e' - e0) + (e0 + 1074)) by lia.
  rewrite (Z.pow_add_r 2 (e' - e0) (e0 + 1074)) by (unfold e0; lia).
  destruct Hb as [_ Hb].
  pose proof (Z.mul_div_le (Zpos P) (2 ^ k) Hpk) as Hd.
  assert (H1 : Zpos m' * 2 ^ (e' - e0) * 2 ^ (e0 + 1074) <= (Zpos P + 2 ^ k) * 2 ^ (e0 + 1074)).
  { apply Z.mul_le_mono_nonneg_r; [lia|].
    apply Z.le_trans with (1 := Hb). rewrite Z.mul_add_distr_r, Z.mul_1_l. lia. }
  rewrite Z.mul_add_distr_r in H1.
  assert (EPY : Zpos P * 2 ^ (e0 + 1074) = 100 * (Zpos m * 2 ^ (e + 1074))).
  { rewrite EP. replace (e + 1074) with (46 + (e0 + 1074)) by (unfold e0; lia).
    rewrite (Z.pow_add_r 2 46 (e0 + 1074)) by (unfold e0; lia). ring. }
  assert (EkY : 2 ^ 45 * (2 ^ k * 2 ^ (e0 + 1074)) <= Zpos m * 2 ^ (e + 1074)).
  { rewrite <- !Z.pow_add_r by (unfold e0; lia).
    apply Z.le_trans with (2 ^ 52 * 2 ^ (e + 1074)).
    - rewrite <- Z.pow_add_r by lia. apply pow2_le. unfold k, e0. lia.
    - apply Z.mul_le_mono_nonneg_r; [|lia].
      apply Z.lt_le_incl, pow2_pos. lia. }
  rewrite EPY in H1. rewrite (Z.mul_assoc (Zpos m')).
  change (2 ^ 45) with 35184372088832 in *.
  revert H1 EkY. clear.
  generalize (Zpos m' * 2 ^ (e' - e0) * 2 ^ (e0 + 1074)) (Zpos m * 2 ^ (e + 1074))
             (2 ^ k * 2 ^ (e0 + 1074)).
  intros R Bm K ? ?. lia.
Qed.

Lemma low_percentage_table :
  forallb (fun i => (SF2Prim (JS.decimal_value false (Z.of_nat i) 2) <=? 52)%float)
          (seq 0 (Z.to_nat 5201)) = true.
Proof. vm_compute. reflexivity. Qed.

Lemma low_percentage_range n :
  0 <= n <= 5200 -> (SF2Prim (JS.decimal_value false n 2) <=? 52)%float = true.
Proof.
  intros Hn. pose proof low_percentage_table as T.
  rewrite forallb_forall in T.
  specialize (T (Z.to_nat n)). rewrite Z2Nat.id in T by lia.
  apply T, in_seq. lia.
Qed.

Lemma toFixed2_low c mc ec :
  Prim2SF c = S754_finite false mc ec ->
  2 ^ 45 * mag mc ec <= (100 * 2 ^ 45 + 1) * (9367487224930634 * 2 ^ 1020) ->
  exists n, JS.toFixed c 2 = JS.FixedDigits false n 2 /\ 0 <= n <= 5200.
Proof.
  intros Hc Hup.
  pose proof (pow2_pos 1020 ltac:(lia)) as HQ.
  assert (Hle : mag mc ec <= mag hundred_m (-46)).
  { rewrite mag_hundred. revert Hup HQ.
    change (2 ^ 45) with 35184372088832. change (2 ^ 54) with 18014398509481984.
    generalize (mag mc ec) (2 ^ 1020). intros; lia. }
  destruct (toFixed2_percentage c mc ec Hc Hle) as (n & En & Hn & _).
  exists n. split; [exact En|]. split; [lia|].
  (* recompute [n] *)
  pose proof (Prim2SF_bounded _ _ _ _ Hc) as B.
  assert (Hsmall : ec <= -46).
  { destruct (Z_le_gt_dec ec (-46)) as [|Hg]; [assumption|exfalso].
    pose proof (mag_lt_of_exp hundred_m (-46) mc ec eq_refl B ltac:(lia)). lia. }
  apply bounded_inv in B as (He & Hu & Hl).
  unfold JS.toFixed in En. rewrite Hc in En.
  destruct (JS.at_least_1e21 mc ec); [discriminate|].
  injection En as <-.
  unfold JS.nearest_scaled.
  replace (0 <=? ec) with false by (symmetry; apply Z.leb_gt; lia).
  set (t := - ec).
  assert (Ht : 46 <= t <= 1074) by (unfold t; lia).
  pose proof (pow2_pos t ltac:(lia)) as HX.
  pose proof (pow2_pos (ec + 1074) ltac:(lia)) as HY.
  assert (EXY : 2 ^ t * 2 ^ (ec + 1074) = 2 ^ 54 * 2 ^ 1020).
  { rewrite <- !Z.pow_add_r by lia. f_equal. unfold t. lia. }
  change (10 ^ 2) with 100.
  replace (2 ^ (t + 1)) with (2 * 2 ^ t)
    by (rewrite Z.pow_add_r by lia; change (2 ^ 1) with 2; lia).
  assert (H1 : 200 * Zpos mc * 2 ^ (ec + 1074) < 10401 * 2 ^ t * 2 ^ (ec + 1074)).
  { rewrite <- (Z.mul_assoc 10401), EXY, <- (Z.mul_assoc 200).
    unfold mag in Hup. revert Hup HQ.
    change (2 ^ 45) with 35184372088832. change (2 ^ 54) with 18014398509481984.
    generalize (Zpos mc * 2 ^ (ec + 1074)) (2 ^ 1020). intros; lia. }
  apply Z.mul_lt_mono_pos_r in H1; [|assumption].
  assert ((2 * (Zpos mc * 100) + 2 ^ t) / (2 * 2 ^ t) < 5201)
    by (apply Z.div_lt_upper_bound; lia).
  lia.
Qed.

(** X18.  A result that is not verified never shows more than 52 per cent:
    for a distance that is not NaN and not below the threshold, the match
    percentage is at most 52. *)
Theorem unverified_percentage_at_most_52 d1 d2 dist r :
  faceapi.euclideanDistance d1 d2 = Normal dist ->
  compareFaces d1 d2 = Normal r ->
  is_nan dist = false ->
  verified r = false ->
  (matchPercentage r <=? 52)%float = true.
Proof.
  intros Hd Hr Hn Hv.
  rewrite (compareFaces_of_distance _ _ _ Hd) in Hr. injection Hr as <-.
  cbn [verified matchPercentage] in *.
  assert (Hzero : forall x, JS.Math_max [0%float; JS.Math_min [100%float; x]] = 0%float ->
                    (JS.Number_of (JS.toFixed (JS.Math_max [0%float; JS.Math_min [100%float; x]]) 2)
                     <=? 52)%float = true)
    by (intros x ->; rewrite round2_zero; reflexivity).
  rewrite is_nan_spec in Hn.
  destruct (Prim2SF dist) as [s|s| |s m e] eqn:Hs; try discriminate.
  - rewrite ltb_spec, Hs, Prim2SF_threshold in Hv. destruct s; discriminate.
  - destruct s; [rewrite ltb_spec, Hs, Prim2SF_threshold in Hv; discriminate|].
    apply Hzero, percentage_of_nonpositive. right.
    rewrite raw_percentage_spec, Hs. reflexivity.
  - destruct s; [rewrite ltb_spec, Hs, Prim2SF_threshold in Hv; discriminate|].
    rewrite (ltb_finite dist _ m e thr_m (-54) Hs Prim2SF_threshold) in Hv.
    apply Z.ltb_ge in Hv.
    pose proof (Prim2SF_bounded _ _ _ _ Hs) as B.
    destruct (Z_lt_le_dec (mag m e) (mag one_m (-52))) as [Hlt|Hge].
    + destruct (sub_one_above_threshold m e B Hv Hlt) as (m1 & e1 & E1 & He1 & Hm1 & Hb1).
      destruct (mul_hundred_upper m1 e1 Hm1 He1) as (m2 & e2 & E2 & Hb2).
      assert (Hraw : Prim2SF ((1 - dist) * 100)%float = S754_finite false m2 e2)
        by (rewrite raw_percentage_spec, Hs, E1; exact E2).
      assert (Hup : 2 ^ 45 * mag m2 e2 <= (100 * 2 ^ 45 + 1) * (9367487224930634 * 2 ^ 1020)).
      { apply Z.le_trans with (1 := Hb2). apply Z.mul_le_mono_nonneg_l; [|exact Hb1].
        change (2 ^ 45) with 35184372088832. lia. }
      pose proof (pow2_pos 1020 ltac:(lia)) as HQ.
      rewrite clamp_eq, is_nan_spec, Hraw.
      replace ((1 - dist) * 100 <? 100)%float with true.
      2:{ symmetry. rewrite (ltb_finite _ _ m2 e2 hundred_m (-46) Hraw Prim2SF_hundred).
          apply Z.ltb_lt. rewrite mag_hundred. revert Hup HQ.
          change (2 ^ 45) with 35184372088832. change (2 ^ 54) with 18014398509481984.
          generalize (mag m2 e2) (2 ^ 1020). intros; lia. }
      replace (0 <? (1 - dist) * 100)%float with true
        by (symmetry; rewrite ltb_spec, Prim2SF_zero, Hraw; reflexivity).
      destruct (toFixed2_low _ m2 e2 Hraw Hup) as (n & En & Hn2).
      rewrite En. unfold JS.Number_of. apply low_percentage_range, Hn2.
    + apply Hzero, raw_percentage_far.
      rewrite (leb_finite 1%float dist one_m (-52) m e Prim2SF_one Hs).
      apply Z.leb_le, Hge.
Qed.

Lemma unverified_percentage_at_most_52_witness :
  (52 <=? 52)%float = true.
Proof.
  exact (unverified_percentage_at_most_52
           [Server.FACE_MATCH_THRESHOLD] [0%float] Server.FACE_MATCH_THRESHOLD
           {| verified := false;
              distance := Server.FACE_MATCH_THRESHOLD;
              matchPercentage := 52%float;
              threshold := Server.FACE_MATCH_THRESHOLD |}
           eq_refl eq_refl eq_refl eq_refl).
Defined.

(** ** A successful verification *)

Local Open Scope list_scope.

(** X19.  A 200 answer is given only when both inputs were present, the
    reference was fetched and decoded, the selfie was decoded, and both
    extractions yielded a descriptor; its body is [compareFaces] of the
    reference descriptor and the selfie descriptor, in this order, and
    carries the threshold 0.48. *)
Theorem verify_success_inversion w req st result :
  fst (verify w req st) = Normal (mkResponse 200 (JsonResult result)) ->
  exists url selfie refImg st1 d1 st2 selfieImg st3 d2,
    body_referenceImageUrl req = Some url /\ req_file req = Some selfie
    /\ loadImageFromUrl w url st = (Normal refImg, st1)
    /\ extractFaceData w refImg st1 = (Normal (Extracted d1), st2)
    /\ loadImageFromBuffer w (file_buffer selfie) st2 = (Normal selfieImg, st3)
    /\ extractFaceData w selfieImg st3
       = (Normal (Extracted d2), snd (verify w req st))
    /\ compareFaces d1 d2 = Normal result
    /\ threshold result = FACE_MATCH_THRESHOLD.
Proof.
  unfold verify, try_catch.
  destruct (verify_body_cases w req st) as [E|[E|(url & selfie & Hu & Ht & Hf)]].
  1,2: rewrite E; discriminate.
  rewrite (verify_body_steps w req st url selfie Hu Ht Hf).
  destruct (loadImageFromUrl w url st) as [[refImg|e] st1] eqn:E1; [|discriminate].
  destruct (extractFaceData w refImg st1) as [[[msg|d1]|e] st2] eqn:E2; try discriminate.
  destruct (loadImageFromBuffer w (file_buffer selfie) st2) as [[selfieImg|e] st3] eqn:E3;
    [|discriminate].
  destruct (extractFaceData w selfieImg st3) as [[[msg|d2]|e] st4] eqn:E4; try discriminate.
  destruct (compareFaces d1 d2) as [res|e] eqn:Hc; [|discriminate].
  cbn [fst snd]. intros H. injection H as <-.
  exists url, selfie, refImg, st1, d1, st2, selfieImg, st3, d2.
  repeat split; try reflexivity; try assumption.
  unfold compareFaces in Hc. destruct (faceapi.euclideanDistance d1 d2); [|discriminate].
  injection Hc as <-. reflexivity.
Qed.

Lemma verify_success_inversion_witness :
  exists url selfie refImg st1 d1 st2 selfieImg st3 d2,
    body_referenceImageUrl Sample.request = Some url /\ req_file Sample.request = Some selfie
    /\ loadImageFromUrl (Sample.world 640 480 [200%float]) url initial = (Normal refImg, st1)
    /\ extractFaceData (Sample.world 640 480 [200%float]) refImg st1
       = (Normal (Extracted d1), st2)
    /\ loadImageFromBuffer (Sample.world 640 480 [200%float]) (file_buffer selfie) st2
       = (Normal selfieImg, st3)
    /\ extractFaceData (Sample.world 640 480 [200%float]) selfieImg st3
       = (Normal (Extracted d2),
          snd (verify (Sample.world 640 480 [200%float]) Sample.request initial))
    /\ compareFaces d1 d2
       = Normal {| verified := true;
                   distance := 0x1.3333333333333p-2%float;
                   matchPercentage := 70%float;
                   threshold := FACE_MATCH_THRESHOLD |}
    /\ threshold {| verified := true;
                    distance := 0x1.3333333333333p-2%float;
                    matchPercentage := 70%float;
                    threshold := FACE_MATCH_THRESHOLD |} = FACE_MATCH_THRESHOLD.
Proof.
  apply (verify_success_inversion (Sample.world 640 480 [200%float]) Sample.request initial).
  vm_compute. reflexivity.
Defined.
